(** * Background workflow and config loader of the signify browser extension

    A shallow embedding of [src/screens/signin/index.tsx] (second part: the
    "Background-Compatible Workflow Loader") and the properties of
    [loadWorkflow], [loadConfig] and [generatePasscodeAndConfig].

    Conventions of the embedding.
    - A JavaScript value is a tree ([JS.value]).  Objects and arrays carry
      their own properties as a list in insertion order (the engine's
      reordering of integer-like keys is not tracked).  Numbers are integral.
    - A thrown value is either an [Error] object or an arbitrary value
      ([JS.thrown]); code that may throw returns [JS.outcome].
    - The five sub-objects of [DEFAULT_CLIENT_CONFIG] are the only objects
      that outlive a call; they live in a [store] and are reached through
      references ([Shared]), so that writes through a shallow copy reach them.
    - The host (extension API, [fetch], storage) is a [world] of answers;
      [yaml.load], [JSON.parse] and the draws of [Math.random] are
      parameters.
    - [console.*] calls only log and are left out, except that evaluating
      their arguments may throw: the read of [fetchError.message] and the
      conversion to a string that a template literal applies to it.
    - The module is an ES module, hence strict: a property write on a
      primitive throws a [TypeError]. *)

From Stdlib Require Import String Ascii List ZArith Bool Lia DecimalString.
From Stdlib Require Import QArith Qround.
Close Scope Q_scope.
Import ListNotations.
Open Scope string_scope.
Local Set Warnings "-register-all".

(** ** JavaScript values *)

Module JS.

Inductive value : Type :=
| VUndef
| VNull
| VBool (b : bool)
| VNum (n : Z)
| VStr (s : string)
| VObj (props : list (string * value))
| VArr (props : list (string * value))
| VHost (tag : string).   (* a built-in: the member [tag] of Object.prototype *)

Definition props := list (string * value).

(** Thrown values and results of code that may throw. *)
Inductive thrown : Type :=
| ErrorObj (kind msg : string)   (* an Error instance: it has a [message] *)
| Val (v : value).               (* anything else: [throw undefined], a rejected promise without reason *)

Inductive outcome (A : Type) : Type :=
| Ret (a : A)
| Throw (e : thrown).
Arguments Ret {A} a.
Arguments Throw {A} e.

Definition bind {A B} (m : outcome A) (k : A -> outcome B) : outcome B :=
  match m with
  | Ret a => k a
  | Throw e => Throw e
  end.

(** [try { m } catch (e) { h e }] *)
Definition try_catch {A} (m : outcome A) (h : thrown -> outcome A) : outcome A :=
  match m with
  | Ret a => Ret a
  | Throw e => h e
  end.

Declare Scope js_scope.
Delimit Scope js_scope with js.
Notation "x <- m ;; k" := (bind m (fun x => k))
  (at level 61, m at next level, right associativity) : js_scope.

Definition TypeError (msg : string) : thrown := ErrorObj "TypeError" msg.

(** *** Property lists *)

Section PropertyLists.
Context {A : Type}.

Fixpoint lookup (k : string) (l : list (string * A)) : option A :=
  match l with
  | [] => None
  | (k', a) :: l' => if k' =? k then Some a else lookup k l'
  end.

(** [o[k] = a] on own properties: an existing key keeps its place. *)
Fixpoint assign (k : string) (a : A) (l : list (string * A)) : list (string * A) :=
  match l with
  | [] => [(k, a)]
  | (k', a') :: l' => if k' =? k then (k', a) :: l' else (k', a') :: assign k a l'
  end.

Fixpoint remove (k : string) (l : list (string * A)) : list (string * A) :=
  match l with
  | [] => []
  | (k', a') :: l' => if k' =? k then remove k l' else (k', a') :: remove k l'
  end.

Definition has_key (k : string) (l : list (string * A)) : bool :=
  match lookup k l with Some _ => true | None => false end.

(** An object literal: properties defined left to right on an empty object. *)
Definition literal (entries : list (string * A)) : list (string * A) :=
  fold_left (fun acc kv => assign (fst kv) (snd kv) acc) entries [].
End PropertyLists.

(** *** Conversions *)

Definition truthy (v : value) : bool :=
  match v with
  | VUndef | VNull => false
  | VBool b => b
  | VNum n => negb (n =? 0)%Z
  | VStr s => negb (s =? "")
  | VObj _ | VArr _ | VHost _ => true
  end.

Definition string_of_nat (n : nat) : string := NilZero.string_of_uint (Nat.to_uint n).
Definition string_of_Z (n : Z) : string := NilZero.string_of_int (Z.to_int n).

(** A JavaScript array of the given elements. *)
Definition array (elems : list value) : value :=
  VArr (combine (map string_of_nat (seq 0 (length elems))) elems).

Fixpoint chars (s : string) : list value :=
  match s with
  | EmptyString => []
  | String c s' => VStr (String c EmptyString) :: chars s'
  end.

(** The own enumerable properties copied by a spread [...v]. *)
Definition own_enumerable (v : value) : props :=
  match v with
  | VObj ps | VArr ps => ps
  | VStr s => combine (map string_of_nat (seq 0 (String.length s))) (chars s)
  | _ => []
  end.

(** The array index a key denotes, if it is a canonical one. *)
Definition index_of_key (k : string) : option nat :=
  match NilEmpty.uint_of_string k with
  | Some u =>
      let n := Nat.of_uint u in
      if string_of_nat n =? k then Some n else None
  | None => None
  end.

(** The elements of an array are its properties under an index below
    [2^32 - 1]. *)
Definition is_array_index (k : string) : bool :=
  match index_of_key k with
  | Some i => (Z.of_nat i <? 4294967295)%Z
  | None => false
  end.

(** *** Conversion to a string *)

Definition cannot_convert : thrown :=
  TypeError "Cannot convert object to primitive value".

(** What calling a value as a method, without arguments, comes to. *)
Inductive called : Type :=
| NotCallable
| Returned (v : value)
| Raised (kind msg : string).

(** [Object.prototype[tag].call(this)] for an object or array [this]; the
    argument that is not passed is [undefined], as a key ["undefined"].
    [toLocaleString] is treated by [call_method]. *)
Definition call_member (tag : string) (this : value) : called :=
  if tag =? "toString" then
    Returned (VStr match this with
                   | VArr _ => "[object Array]"
                   | _ => "[object Object]"
                   end)
  else if tag =? "valueOf" then Returned this
  else if tag =? "constructor" then Returned (VObj [])       (* [Object()]: a new object *)
  else if (tag =? "hasOwnProperty") || (tag =? "propertyIsEnumerable") then
    Returned (VBool match this with
                    | VObj ps | VArr ps => has_key "undefined" ps
                    | _ => false
                    end)
  else if tag =? "isPrototypeOf" then Returned (VBool false)
  else if (tag =? "__lookupGetter__") || (tag =? "__lookupSetter__") then Returned VUndef
  else if (tag =? "__defineGetter__") || (tag =? "__defineSetter__") then
    Raised "TypeError" "Object.prototype.__defineGetter__: Expecting function"
  else NotCallable.                     (* [__proto__] is an object, not a function *)

(** [m.call(this)] for a property value [m].  The only functions among the
    values are the members of [Object.prototype].  [toLocaleString] calls
    [this.toString()]: installed as [toString] or [join] it calls itself
    without end ([first] attempt of the conversion); installed as [valueOf]
    it repeats a call that has failed to give a primitive. *)
Definition call_method (first : bool) (m this : value) : called :=
  match m with
  | VHost tag =>
      if tag =? "toLocaleString" then
        if first then Raised "RangeError" "Maximum call stack size exceeded"
        else Raised "TypeError" "Cannot convert object to primitive value"
      else call_member tag this
  | _ => NotCallable
  end.

Definition string_of_primitive (v : value) : option string :=
  match v with
  | VUndef => Some "undefined"
  | VNull => Some "null"
  | VBool true => Some "true"
  | VBool false => Some "false"
  | VNum n => Some (string_of_Z n)
  | VStr s => Some s
  | VObj _ | VArr _ | VHost _ => None
  end.

(** A conversion ends with a string or with an [Error] of the given kind
    and message. *)
Definition converted : Type := (string + string * string)%type.

(** One step of [OrdinaryToPrimitive]: a primitive that the method returns
    is the result, an error it throws is thrown; otherwise the [next] step
    decides. *)
Definition after_call (r : called) (next : converted) : converted :=
  match r with
  | NotCallable => next
  | Returned v =>
      match string_of_primitive v with
      | Some s => inl s
      | None => next
      end
  | Raised kind msg => inr (kind, msg)
  end.

(** The second step: an own [valueOf]; the inherited one returns the object
    itself, which is no primitive. *)
Definition after_valueOf (ps : list (string * value)) (this : value) : converted :=
  let fail := inr ("TypeError", "Cannot convert object to primitive value") in
  match lookup "valueOf" ps with
  | Some m => after_call (call_method false m this) fail
  | None => fail
  end.

(** [ToString], as a template literal [`${v}`] applies it (numbers: exact
    below [10^21]).  An object or array is converted to a primitive with its
    [toString], then its [valueOf], when these are callable.  Without an own
    [toString] an object prints as [[object Object]] and an array joins the
    strings of its elements (exact when they are listed in order without
    holes), through an own [join] if it has a callable one, and prints as
    [[object Array]] under an own [join] that is not callable.  A host
    object prints as its tag. *)
Fixpoint conversion (v : value) : converted :=
  match v with
  | VUndef => inl "undefined"
  | VNull => inl "null"
  | VBool true => inl "true"
  | VBool false => inl "false"
  | VNum n => inl (string_of_Z n)
  | VStr s => inl s
  | VHost tag => inl tag
  | VObj ps =>
      match lookup "toString" ps with
      | Some m => after_call (call_method true m v) (after_valueOf ps v)
      | None => inl "[object Object]"
      end
  | VArr ps =>
      match lookup "toString" ps with
      | Some m => after_call (call_method true m v) (after_valueOf ps v)
      | None =>
          match lookup "join" ps with
          | Some j =>
              match call_method true j v with
              | NotCallable => inl "[object Array]"
              | r => after_call r (after_valueOf ps v)
              end
          | None =>
              match
                (fix elements (l : list (string * value))
                   : list string + string * string :=
                   match l with
                   | [] => inl []
                   | (k, x) :: l' =>
                       if is_array_index k then
                         match match x with
                               | VUndef | VNull => inl ""
                               | _ => conversion x
                               end
                         with
                         | inl s =>
                             match elements l' with
                             | inl rest => inl (s :: rest)
                             | inr e => inr e
                             end
                         | inr e => inr e
                         end
                       else elements l'
                   end) ps
              with
              | inl parts => inl (String.concat "," parts)
              | inr e => inr e
              end
          end
      end
  end.

Definition to_string (v : value) : outcome string :=
  match conversion v with
  | inl s => Ret s
  | inr (kind, msg) => Throw (ErrorObj kind msg)
  end.

(** [ToPropertyKey] of a computed key [[v]]: the same conversion (no value
    of the embedding is a symbol). *)
Definition to_property_key (v : value) : outcome string := to_string v.

(** *** Property access *)

(** The members every ordinary object inherits from [Object.prototype]. *)
Definition Object_prototype : list string :=
  [ "constructor"; "__defineGetter__"; "__defineSetter__"; "hasOwnProperty";
    "__lookupGetter__"; "__lookupSetter__"; "isPrototypeOf";
    "propertyIsEnumerable"; "toString"; "valueOf"; "__proto__";
    "toLocaleString" ].

Definition inherited (k : string) : value :=
  if existsb (String.eqb k) Object_prototype then VHost k else VUndef.

(** [base[k]] as an rvalue.  Own properties first, then [Object.prototype];
    the members of the other built-in prototypes and [length] are not
    tracked (the loader never reads them). *)
Definition get_prop (base : value) (k : string) : outcome value :=
  match base with
  | VUndef => Throw (TypeError "Cannot read properties of undefined")
  | VNull => Throw (TypeError "Cannot read properties of null")
  | VObj ps | VArr ps =>
      match lookup k ps with
      | Some v => Ret v
      | None => Ret (inherited k)
      end
  | _ => Ret (inherited k)
  end.

(** [base[k] = v] in strict mode; the result is [base] after the write.
    Without an own [__proto__] the inherited setter runs and no own property
    appears.  Writing to the [length] of an array drops the elements from
    that index on; a non-number is taken as an invalid length (exact for
    objects and [undefined]; the loader stores only object literals under a
    computed key).  A write on a host object is not tracked. *)
Definition set_prop (base : value) (k : string) (v : value) : outcome value :=
  match base with
  | VUndef => Throw (TypeError "Cannot set properties of undefined")
  | VNull => Throw (TypeError "Cannot set properties of null")
  | VBool _ | VNum _ | VStr _ =>
      Throw (TypeError ("Cannot create property '" ++ k ++ "'"))
  | VObj ps =>
      if (k =? "__proto__") && negb (has_key k ps) then Ret (VObj ps)
      else Ret (VObj (assign k v ps))
  | VArr ps =>
      if (k =? "__proto__") && negb (has_key k ps) then Ret (VArr ps)
      else if k =? "length" then
        match v with
        | VNum n =>
            if ((0 <=? n) && (n <? 2 ^ 32))%Z
            then Ret (VArr (filter (fun kv : string * value =>
                                      match index_of_key (fst kv) with
                                      | Some i => (i <? Z.to_nat n)%nat
                                      | None => true
                                      end) ps))
            else Throw (ErrorObj "RangeError" "Invalid array length")
        | _ => Throw (ErrorObj "RangeError" "Invalid array length")
        end
      else Ret (VArr (assign k v ps))
  | VHost tag => Ret (VHost tag)
  end.

(** [e.message] for a caught value [e]. *)
Definition message_of (e : thrown) : outcome value :=
  match e with
  | ErrorObj _ msg => Ret (VStr msg)
  | Val v => get_prop v "message"
  end.

(** [`${e.message}`], the argument of the [console] call of a [catch]: the
    message is read and converted to a string. *)
Definition log_message (e : thrown) : outcome string :=
  bind (message_of e) to_string.

(** [`${e}`]: the caught value itself is converted ([Error.prototype.toString]
    for an [Error]). *)
Definition log_thrown (e : thrown) : outcome string :=
  match e with
  | ErrorObj kind msg => Ret (if msg =? "" then kind else kind ++ ": " ++ msg)
  | Val v => to_string v
  end.

(** Nested read for stating results: [at_path v [a; b]] is [v.a.b], with
    [undefined] when a step is missing. *)
Fixpoint at_path (v : value) (path : list string) : value :=
  match path with
  | [] => v
  | k :: rest =>
      match v with
      | VObj ps | VArr ps =>
          match lookup k ps with
          | Some v' => at_path v' rest
          | None => VUndef
          end
      | _ => VUndef
      end
  end.

(** [k in v.path]: the key is an own property of the object at [path]. *)
Definition has_at (v : value) (path : list string) (k : string) : bool :=
  match at_path v path with
  | VObj ps | VArr ps => has_key k ps
  | _ => false
  end.

End JS.
Import JS.
Open Scope js_scope.

(** ** The module state and the host *)

(** The sub-objects of [DEFAULT_CLIENT_CONFIG]: created once when the module
    is loaded, shared by every copy of the template. *)
Inductive tref : Type := RSecrets | RAgents | RIdentifiers | RUsers | RCredentials.

Record store : Type := mkStore {
  secrets_obj : props;
  agents_obj : props;
  identifiers_obj : props;
  users_arr : props;
  credentials_obj : props
}.

Definition deref (s : store) (r : tref) : value :=
  match r with
  | RSecrets => VObj (secrets_obj s)
  | RAgents => VObj (agents_obj s)
  | RIdentifiers => VObj (identifiers_obj s)
  | RUsers => VArr (users_arr s)
  | RCredentials => VObj (credentials_obj s)
  end.

Definition store_put (r : tref) (ps : props) (s : store) : store :=
  match r with
  | RSecrets => mkStore ps (agents_obj s) (identifiers_obj s) (users_arr s) (credentials_obj s)
  | RAgents => mkStore (secrets_obj s) ps (identifiers_obj s) (users_arr s) (credentials_obj s)
  | RIdentifiers => mkStore (secrets_obj s) (agents_obj s) ps (users_arr s) (credentials_obj s)
  | RUsers => mkStore (secrets_obj s) (agents_obj s) (identifiers_obj s) ps (credentials_obj s)
  | RCredentials => mkStore (secrets_obj s) (agents_obj s) (identifiers_obj s) (users_arr s) ps
  end.

(** A property of a top-level config object holds either a value of the
    call's own or a reference to one of the template's sub-objects. *)
Inductive slot : Type :=
| Own (v : value)
| Shared (r : tref).

Definition obj := list (string * slot).

Definition read_slot (s : store) (sl : slot) : value :=
  match sl with
  | Own v => v
  | Shared r => deref s r
  end.

(** What [loadConfig] resolves to: a value parsed from the bundled file
    (self-contained), or a fresh top-level object copied from the template. *)
Inductive config : Type :=
| Parsed (v : value)
| Copied (o : obj).

(** The config as a caller sees it when the template is in state [s]. *)
Definition snapshot (s : store) (c : config) : value :=
  match c with
  | Parsed v => v
  | Copied o => VObj (map (fun ks : string * slot => (fst ks, read_slot s (snd ks))) o)
  end.

(** Stateful code: the store is threaded, a throw keeps the writes made. *)
Definition M (A : Type) : Type := store -> outcome A * store.

Definition mret {A} (a : A) : M A := fun s => (Ret a, s).

Definition mbind {A B} (m : M A) (k : A -> M B) : M B :=
  fun s =>
    match m s with
    | (Ret a, s') => k a s'
    | (Throw e, s') => (Throw e, s')
    end.

Definition lift {A} (m : outcome A) : M A := fun s => (m, s).

Definition mtry {A} (m : M A) (h : thrown -> M A) : M A :=
  fun s =>
    match m s with
    | (Ret a, s') => (Ret a, s')
    | (Throw e, s') => h e s'
    end.

Notation "x <~ m ;; k" := (mbind m (fun x => k))
  (at level 61, m at next level, right associativity) : js_scope.

(** [o.k] as an rvalue. *)
Definition read_member (o : obj) (k : string) : M value :=
  fun s =>
    (Ret match lookup k o with
         | Some sl => read_slot s sl
         | None => inherited k
         end, s).

(** [o.k1.k2 = v]: the write lands in the object that [o.k1] refers to. *)
Definition write_member (o : obj) (k1 k2 : string) (v : value) : M obj :=
  fun s =>
    match lookup k1 o with
    | Some (Shared r) =>
        match set_prop (deref s r) k2 v with
        | Ret base' => (Ret o, store_put r (own_enumerable base') s)
        | Throw e => (Throw e, s)
        end
    | Some (Own base) =>
        match set_prop base k2 v with
        | Ret base' => (Ret (assign k1 (Own base') o), s)
        | Throw e => (Throw e, s)
        end
    | None =>
        match set_prop (inherited k1) k2 v with
        | Ret _ => (Ret o, s)
        | Throw e => (Throw e, s)
        end
    end.

(** The answers of the host.  [fetch p] stands for
    [fetch(getExtensionApi().runtime.getURL(p))]: a throw of any of the three
    calls, or of the log line that prints the URL between them, is a throw
    of [fetch].  [storage_local_get k] stands for
    [(await getExtensionApi().storage.local.get(k))[k]]. *)
Record response : Type := mkResponse {
  ok : bool;
  status : Z;
  text : outcome string
}.

Record world : Type := mkWorld {
  fetch : string -> outcome response;
  storage_local_get : string -> outcome value
}.

(** ** Constants of the module *)

Definition EMBEDDED_WORKFLOWS : value :=
  VObj
    [ ("create-client", VStr "
workflow:
  steps:
    gleif_client:
      id: 'gleif_client'
      type: 'create_client'
      agent_name: 'gleif-agent-1'
      description: 'Creating client for gleif agent'
  ");
      ("create-client-workflow", VStr "
workflow:
  steps:
    gleif_client:
      id: 'gleif_client'
      type: 'create_client'
      agent_name: 'gleif-agent-1'
      description: 'Creating client for gleif agent'
  ");
      ("create-aid-workflow", VStr "
workflow:
  steps:
    gleif_aid:
      id: 'gleif_aid'
      type: 'create_aid'
      aid: 'gleif-aid-1'
      description: 'Creating AID for gleif-aid-1'
  ") ].

(** [DEFAULT_CLIENT_CONFIG]: the top-level object refers to its five
    sub-objects, whose contents when the module is loaded are
    [initial_store]. *)
Definition DEFAULT_CLIENT_CONFIG : obj :=
  [ ("secrets", Shared RSecrets);
    ("agents", Shared RAgents);
    ("identifiers", Shared RIdentifiers);
    ("users", Shared RUsers);
    ("credentials", Shared RCredentials) ].

Definition initial_store : store :=
  {| secrets_obj := [ ("browser_extension", VStr "AUTOGENERATED_AT_RUNTIME") ];
     agents_obj := [ ("browser_extension", VObj [ ("secret", VStr "browser_extension") ]) ];
     identifiers_obj :=
       [ ("browser-extension-aid",
          VObj [ ("agent", VStr "browser_extension");
                 ("name", VStr "browser-extension-aid") ]) ];
     users_arr :=
       own_enumerable
         (array [ VObj [ ("type", VStr "EXTENSION");
                         ("alias", VStr "extension-user");
                         ("identifiers", array [ VStr "browser-extension-aid" ]) ] ]);
     credentials_obj := [] |}.

(** ** Passcode generation *)

Definition characters : string :=
  "ABCDEFGHIJKLMNOPQRSTUVWXYZabcdefghijklmnopqrstuvwxyz0123456789-_".

(** [s.charAt(i)]: the empty string outside the string. *)
Definition charAt (s : string) (i : Z) : string :=
  if (i <? 0)%Z then ""
  else match String.get (Z.to_nat i) s with
       | Some c => String c EmptyString
       | None => ""
       end.

(** [Math.floor(x * len)] for a draw [x] of [Math.random()].  A double is a
    rational; an engine draws [0 <= x < 1].  The product of a double below 1
    with 64 is exact, so the rational product is the one computed. *)
Definition floor_random_times (x : Q) (len : nat) : Z :=
  Qfloor (x * inject_Z (Z.of_nat len)).

(** The loop of [generateRandomPasscode]: [remaining] iterations from
    index [i]; [random i] is the draw of iteration [i]. *)
Fixpoint passcode_loop (random : nat -> Q) (i remaining : nat) (result : string) : string :=
  match remaining with
  | O => result
  | S remaining' =>
      passcode_loop random (S i) remaining'
        (result ++ charAt characters
                     (floor_random_times (random i) (String.length characters)))
  end.

Definition generateRandomPasscode (random : nat -> Q) : string :=
  let length := 20%nat in
  passcode_loop random 0 length "".

Definition generatePasscodeAndConfig (random : nat -> Q) : M (string * obj) :=
  let passcode := generateRandomPasscode random in
  let config := DEFAULT_CLIENT_CONFIG in          (* { ...DEFAULT_CLIENT_CONFIG } *)
  config <~ write_member config "secrets" "browser_extension" (VStr passcode) ;;
  mret (passcode, config).

(** ** Workflows *)

Definition getFallbackWorkflow (workflowName : string) : value :=
  if (workflowName =? "create-client-workflow") || (workflowName =? "create-client") then
    VObj [ ("workflow",
            VObj [ ("steps",
                    VObj [ ("gleif_client",
                            VObj [ ("id", VStr "gleif_client");
                                   ("type", VStr "create_client");
                                   ("agent_name", VStr "gleif-agent-1");
                                   ("description", VStr "Creating client for gleif agent (FALLBACK)") ]) ]) ]) ]
  else if workflowName =? "create-aid-workflow" then
    VObj [ ("workflow",
            VObj [ ("steps",
                    VObj [ ("gleif_aid",
                            VObj [ ("id", VStr "gleif_aid");
                                   ("type", VStr "create_aid");
                                   ("aid", VStr "gleif-aid-1");
                                   ("description", VStr "Creating AID for gleif-aid-1 (FALLBACK)") ]) ]) ]) ]
  else VNull.

Section Loader.

(** [yaml.load] of js-yaml and [JSON.parse]: [None] when the parser throws
    (a [YAMLException], a [SyntaxError]: both are [Error] objects). *)
Variable yaml_load : value -> option value.
Variable JSON_parse : string -> option value.

Definition yaml_load_js (input : value) : outcome value :=
  match yaml_load input with
  | Some v => Ret v
  | None => Throw (ErrorObj "YAMLException" "")
  end.

Definition JSON_parse_js (input : string) : outcome value :=
  match JSON_parse input with
  | Some v => Ret v
  | None => Throw (ErrorObj "SyntaxError" "")
  end.

(** The inner [try] of [loadWorkflow]. *)
Definition workflow_from_file (w : world) (workflowName : string) : outcome value :=
  response <- fetch w ("src/workflows/" ++ workflowName ++ ".yaml") ;;
  if negb (ok response) then
    Throw (ErrorObj "Error" ("Failed to fetch workflow file: " ++ string_of_Z (status response)))
  else
    yamlText <- text response ;;
    yaml_load_js (VStr yamlText).

(** The storage [try]: [Some v] when it returns [v] from the function,
    [None] when control falls through to the last resort.  Its [catch] logs
    [`${storageError}`]. *)
Definition workflow_from_storage (w : world) (workflowName : string) : outcome (option value) :=
  try_catch
    (storedWorkflow <- storage_local_get w ("workflow_" ++ workflowName) ;;
     if truthy storedWorkflow then
       v <- yaml_load_js storedWorkflow ;; Ret (Some v)
     else Ret None)
    (fun storageError =>
       _ <- log_thrown storageError ;;
       Ret None).

(** The inner [catch] of [loadWorkflow]. *)
Definition workflow_fallbacks (w : world) (workflowName : string) (fetchError : thrown)
  : outcome value :=
  _ <- log_message fetchError ;;
  embeddedWorkflow <- get_prop EMBEDDED_WORKFLOWS workflowName ;;
  if truthy embeddedWorkflow then yaml_load_js embeddedWorkflow
  else
    returned <- workflow_from_storage w workflowName ;;
    match returned with
    | Some v => Ret v
    | None => Ret (getFallbackWorkflow workflowName)
    end.

Definition loadWorkflow (w : world) (workflowName : string) : outcome value :=
  try_catch
    (try_catch (workflow_from_file w workflowName)
               (workflow_fallbacks w workflowName))
    (fun error =>
       _ <- log_message error ;;
       Ret (getFallbackWorkflow workflowName)).

(** *** Configs *)

(** The object after one of its own properties was mutated in place. *)
Definition mutated (base : value) (k : string) (v' : value) : value :=
  match base with
  | VObj ps => VObj (assign k v' ps)
  | VArr ps => VArr (assign k v' ps)
  | _ => base
  end.

(** [...(runtimeValues.bran ? { bran: runtimeValues.bran } : {})] *)
Definition bran_if_provided (bran : value) : props :=
  if truthy bran then [ ("bran", bran) ] else [].

(** The agent entry rebuilt by both branches:
    [{ ...entry, url, boot_url, passcode, ...(bran ? { bran } : {}) }]. *)
Definition with_runtime_values (entry agentUrl bootUrl passcode bran : value) : value :=
  VObj (literal (own_enumerable entry
                 ++ [ ("url", agentUrl); ("boot_url", bootUrl); ("passcode", passcode) ]
                 ++ bran_if_provided bran)).

(** The block [if (runtimeValues) { ... }] of the inner [try]: the parsed
    config, updated in place. *)
Definition update_with_runtime_values (config runtimeValues : value) : outcome value :=
  agents <- get_prop config "agents" ;;
  entry <- (if truthy agents then get_prop agents "gleif-agent-1" else Ret agents) ;;
  config <-
    (if truthy entry then
       agentUrl <- get_prop runtimeValues "agentUrl" ;;
       bootUrl <- get_prop runtimeValues "bootUrl" ;;
       passcode <- get_prop runtimeValues "passcode" ;;
       bran <- get_prop runtimeValues "bran" ;;
       agents' <- set_prop agents "gleif-agent-1"
                    (with_runtime_values entry agentUrl bootUrl passcode bran) ;;
       Ret (mutated config "agents" agents')
     else Ret config) ;;
  agentUrl <- get_prop runtimeValues "agentUrl" ;;
  config <- set_prop config "agentUrl" agentUrl ;;
  bootUrl <- get_prop runtimeValues "bootUrl" ;;
  config <- set_prop config "bootUrl" bootUrl ;;
  bran <- get_prop runtimeValues "bran" ;;
  config <- (if truthy bran then set_prop config "bran" bran else Ret config) ;;
  aidName <- get_prop runtimeValues "aidName" ;;
  identifiers <- (if truthy aidName then get_prop config "identifiers" else Ret aidName) ;;
  if truthy identifiers then
    key <- to_property_key aidName ;;
    identifiers' <- set_prop identifiers key
                      (VObj (literal [ ("agent", VStr "gleif-agent-1");
                                       ("name", aidName) ])) ;;
    Ret (mutated config "identifiers" identifiers')
  else Ret config.

(** The inner [try] of [loadConfig]: the bundled file, parsed and updated. *)
Definition config_from_file (w : world) (configName : string) (runtimeValues : value)
  : outcome value :=
  response <- fetch w ("src/user_config/" ++ configName ++ ".json") ;;
  if negb (ok response) then
    Throw (ErrorObj "Error" ("Failed to fetch config file: " ++ string_of_Z (status response)))
  else
    configText <- text response ;;
    config <- JSON_parse_js configText ;;
    if truthy runtimeValues then update_with_runtime_values config runtimeValues
    else Ret config.

(** The inner [catch] of [loadConfig]: the default template with the
    runtime values injected. *)
Definition config_from_default (fetchError : thrown) (runtimeValues : value) : M config :=
  _ <~ lift (log_message fetchError) ;;
  let config := DEFAULT_CLIENT_CONFIG in        (* { ...DEFAULT_CLIENT_CONFIG } *)
  if truthy runtimeValues then
    passcode <~ lift (get_prop runtimeValues "passcode") ;;
    config <~ (if truthy passcode
               then write_member config "secrets" "browser_extension" passcode
               else mret config) ;;
    agents <~ read_member config "agents" ;;
    entry <~ (if truthy agents then lift (get_prop agents "browser_extension")
              else mret agents) ;;
    config <~
      (if truthy entry then
         agentUrl <~ lift (get_prop runtimeValues "agentUrl") ;;
         bootUrl <~ lift (get_prop runtimeValues "bootUrl") ;;
         passcode <~ lift (get_prop runtimeValues "passcode") ;;
         bran <~ lift (get_prop runtimeValues "bran") ;;
         write_member config "agents" "browser_extension"
           (with_runtime_values entry agentUrl bootUrl passcode bran)
       else mret config) ;;
    agentUrl <~ lift (get_prop runtimeValues "agentUrl") ;;
    let config := assign "agentUrl" (Own agentUrl) config in
    bootUrl <~ lift (get_prop runtimeValues "bootUrl") ;;
    let config := assign "bootUrl" (Own bootUrl) config in
    bran <~ lift (get_prop runtimeValues "bran") ;;
    let config := if truthy bran then assign "bran" (Own bran) config else config in
    aidName <~ lift (get_prop runtimeValues "aidName") ;;
    if truthy aidName then
      identifiers <~ read_member config "identifiers" ;;
      key <~ lift (to_property_key aidName) ;;
      mret (Copied
              (assign "identifiers"
                 (Own (VObj (literal
                               (own_enumerable identifiers
                                ++ [ (key,
                                      VObj (literal [ ("agent", VStr "gleif-agent-1");
                                                      ("name", aidName) ])) ]))))
                 config))
    else mret (Copied config)
  else mret (Copied config).

Definition loadConfig (w : world) (configName : string) (runtimeValues : value) : M config :=
  mtry
    (mtry (v <~ lift (config_from_file w configName runtimeValues) ;; mret (Parsed v))
          (fun fetchError => config_from_default fetchError runtimeValues))
    (fun error =>
       _ <~ lift (log_message error) ;;
       mret (Parsed VNull)).

End Loader.

(** ** A reader for the embedded documents

    [yaml.load] is a parameter of the loader.  To evaluate the loader on the
    documents of [EMBEDDED_WORKFLOWS], [Yaml.load] reads the fragment of YAML
    they are written in: block mappings, one [key:] or [key: 'scalar'] per
    line, nesting by indentation.  It is not js-yaml: outside the fragment
    it answers [None], also for documents that js-yaml accepts, so it is
    applied to documents of the fragment and to text that js-yaml rejects as
    well. *)

Module Yaml.

Record line : Type := mkLine {
  l_indent : nat;
  l_key : string;
  l_scalar : option string     (* [None]: a nested block or nothing follows *)
}.

Fixpoint lines_of (cs cur : list ascii) : list (list ascii) :=
  match cs with
  | [] => [rev cur]
  | c :: cs' =>
      if (c =? "010")%char then rev cur :: lines_of cs' []
      else lines_of cs' (c :: cur)
  end.

Fixpoint indent_of (cs : list ascii) : nat * list ascii :=
  match cs with
  | c :: cs' =>
      if (c =? " ")%char then let (n, r) := indent_of cs' in (S n, r)
      else (O, cs)
  | [] => (O, [])
  end.

Fixpoint split_colon (cs key : list ascii) : option (list ascii * list ascii) :=
  match cs with
  | [] => None
  | c :: cs' =>
      if (c =? ":")%char then Some (rev key, cs')
      else split_colon cs' (c :: key)
  end.

(** What follows the colon: nothing, or a space and a single-quoted scalar
    without quotes inside. *)
Definition scalar_of (cs : list ascii) : option (option string) :=
  match cs with
  | [] => Some None
  | sp :: q :: body =>
      if ((sp =? " ") && (q =? "'"))%char then
        match rev body with
        | q' :: inner =>
            if (q' =? "'")%char && negb (existsb (Ascii.eqb "'") inner)
            then Some (Some (string_of_list_ascii (rev inner)))
            else None
        | [] => None
        end
      else None
  | _ => None
  end.

(** Blank lines are skipped; [None] on a line outside the fragment. *)
Fixpoint read_lines (ls : list (list ascii)) : option (list line) :=
  match ls with
  | [] => Some []
  | l :: ls' =>
      let (n, rest) := indent_of l in
      match rest with
      | [] => read_lines ls'
      | _ =>
          match split_colon rest [] with
          | Some (key, after) =>
              match scalar_of after, read_lines ls' with
              | Some sc, Some more =>
                  Some (mkLine n (string_of_list_ascii key) sc :: more)
              | _, _ => None
              end
          | None => None
          end
      end
  end.

(** The mapping whose keys sit at indentation [ind], and the lines left. *)
Fixpoint block (fuel ind : nat) (ls : list line) : option (props * list line) :=
  match fuel with
  | O => None
  | S fuel' =>
      match ls with
      | [] => Some ([], [])
      | l :: rest =>
          if (l_indent l <? ind)%nat then Some ([], ls)
          else if (ind <? l_indent l)%nat then None
          else
            match l_scalar l with
            | Some sc =>
                match block fuel' ind rest with
                | Some (es, r) => Some ((l_key l, VStr sc) :: es, r)
                | None => None
                end
            | None =>
                match rest with
                | l' :: _ =>
                    if (ind <? l_indent l')%nat then
                      match block fuel' (l_indent l') rest with
                      | Some (child, r) =>
                          match block fuel' ind r with
                          | Some (es, r') => Some ((l_key l, VObj child) :: es, r')
                          | None => None
                          end
                      | None => None
                      end
                    else
                      match block fuel' ind rest with
                      | Some (es, r) => Some ((l_key l, VNull) :: es, r)
                      | None => None
                      end
                | [] => Some ([(l_key l, VNull)], [])
                end
            end
      end
  end.

Definition load (input : value) : option value :=
  match input with
  | VStr s =>
      match read_lines (lines_of (list_ascii_of_string s) []) with
      | Some [] => Some VUndef                    (* an empty document *)
      | Some ((l :: _) as ls) =>
          match block (S (length ls)) (l_indent l) ls with
          | Some (es, []) => Some (VObj es)
          | _ => None
          end
      | None => None
      end
  | _ => None
  end.

End Yaml.

(** ** Vocabulary of the statements *)

(** A [catch] can log the value it caught: reading [e.message] does not
    throw ([e] is not a thrown [undefined] or [null]) and the message
    converts to a string (it is not an object with a [toString] of its own).
    Every [Error] is loggable. *)
Definition loggable (e : thrown) : bool :=
  match log_message e with
  | Ret _ => true
  | Throw _ => false
  end.

(** The bundled-file tier is unavailable: the request fails, the response is
    not OK, or its body cannot be read. *)
Definition file_unavailable (r : outcome response) : bool :=
  match r with
  | Throw _ => true
  | Ret resp =>
      negb (ok resp)
      || match text resp with
         | Throw _ => true
         | Ret _ => false
         end
  end.

(** The failure of the request or of the body read, if there is one, is a
    value the [catch] can log.  (A response that is not OK makes the loader
    throw an [Error] of its own.) *)
Definition failure_loggable (r : outcome response) : bool :=
  match r with
  | Throw e => loggable e
  | Ret resp =>
      negb (ok resp)
      || match text resp with
         | Throw e => loggable e
         | Ret _ => true
         end
  end.

(** The storage tier is unavailable: the read fails or finds nothing. *)
Definition storage_unavailable (r : outcome value) : bool :=
  match r with
  | Throw _ => true
  | Ret v => negb (truthy v)
  end.

(** The names [getFallbackWorkflow] knows. *)
Definition fallback_names : list string :=
  [ "create-client"; "create-client-workflow"; "create-aid-workflow" ].

(** The invariant of the data model: every identifier's [agent] names an
    own key of [agents]. *)
Definition identifiers_reference_agents (c : value) : bool :=
  forallb (fun entry : string * value =>
             match at_path (snd entry) [ "agent" ] with
             | VStr a => has_at c [ "agents" ] a
             | _ => false
             end)
          (own_enumerable (at_path c [ "identifiers" ])).

(** The characters of the passcode alphabet: [A-Z], [a-z], [0-9], [-], [_]. *)
Definition in_alphabet (c : ascii) : bool :=
  let n := nat_of_ascii c in
  ((65 <=? n) && (n <=? 90) || (97 <=? n) && (n <=? 122)
   || (48 <=? n) && (n <=? 57) || (n =? 45) || (n =? 95))%nat.

Section Reachable.
Variable JSON_parse : string -> option value.

(** The states of the template that calls of the module's exported
    functions can produce ([loadWorkflow] does not touch it).  What a caller
    does to the objects it was handed is outside the module. *)
Inductive reachable : store -> Prop :=
| reach_initial : reachable initial_store
| reach_loadConfig w configName runtimeValues s :
    reachable s ->
    reachable (snd (loadConfig JSON_parse w configName runtimeValues s))
| reach_generate random s :
    reachable s ->
    reachable (snd (generatePasscodeAndConfig random s)).
End Reachable.

(** The template always has its agent entry, and the entry is an object. *)
Definition agent_entry_present (s : store) : Prop :=
  exists entry, lookup "browser_extension" (agents_obj s) = Some (VObj entry).

(** Two configs agree on the presence of [bran], at the top level and on the
    agent entry of the bundled file. *)
Definition same_bran (v v' : value) : Prop :=
  has_at v [] "bran" = has_at v' [] "bran"
  /\ has_at v [ "agents"; "gleif-agent-1" ] "bran"
     = has_at v' [ "agents"; "gleif-agent-1" ] "bran".

(** ** The default branch in closed form *)

(** A read of a property of a truthy value does not throw. *)
Definition prop_of (base : value) (k : string) : value :=
  match get_prop base k with
  | Ret v => v
  | Throw _ => VUndef
  end.

(** The template after a call that takes the default branch ... *)
Definition template_after (runtimeValues : value) (s : store) : store :=
  let passcode := prop_of runtimeValues "passcode" in
  let s1 :=
    if truthy passcode
    then store_put RSecrets (assign "browser_extension" passcode (secrets_obj s)) s
    else s in
  let entry := prop_of (VObj (agents_obj s1)) "browser_extension" in
  if truthy entry
  then store_put RAgents
         (assign "browser_extension"
            (with_runtime_values entry
               (prop_of runtimeValues "agentUrl") (prop_of runtimeValues "bootUrl")
               passcode (prop_of runtimeValues "bran"))
            (agents_obj s1)) s1
  else s1.

(** The key of the identifier entry: [ToPropertyKey] of a truthy
    [aidName]; no key is computed for a falsy one. *)
Definition aid_key (runtimeValues : value) : outcome (option string) :=
  let aidName := prop_of runtimeValues "aidName" in
  if truthy aidName then key <- to_property_key aidName ;; Ret (Some key)
  else Ret None.

(** ... the top-level object it returns when the key of the identifier
    entry can be computed ... *)
Definition copy_after (runtimeValues : value) (s : store) : obj :=
  let bran := prop_of runtimeValues "bran" in
  let aidName := prop_of runtimeValues "aidName" in
  let config :=
    (DEFAULT_CLIENT_CONFIG
     ++ [ ("agentUrl", Own (prop_of runtimeValues "agentUrl"));
          ("bootUrl", Own (prop_of runtimeValues "bootUrl")) ]
     ++ (if truthy bran then [ ("bran", Own bran) ] else []))%list in
  match aid_key runtimeValues with
  | Ret (Some key) =>
      assign "identifiers"
        (Own (VObj (literal
                      (identifiers_obj (template_after runtimeValues s)
                       ++ [ (key,
                             VObj [ ("agent", VStr "gleif-agent-1");
                                    ("name", aidName) ]) ]))))
        config
  | _ => config
  end.

(** ... and what [loadConfig] resolves to, with the template it leaves:
    [null] when the key cannot be computed, which is found out after the
    writes to the template. *)
Definition default_config (runtimeValues : value) (s : store) : outcome config * store :=
  if truthy runtimeValues then
    (match aid_key runtimeValues with
     | Ret _ => Ret (Copied (copy_after runtimeValues s))
     | Throw _ => Ret (Parsed VNull)
     end,
     template_after runtimeValues s)
  else (Ret (Copied DEFAULT_CLIENT_CONFIG), s).

(** ** The tiers of [loadWorkflow] after the bundled file

    What the inner [catch] returns once it has logged the failure: the
    parse of the embedded document, else the parse of the stored one, else
    the hardcoded definition; the hardcoded definition also when a parse
    throws or the storage [catch] cannot log what it caught. *)
Definition workflow_after_file (yaml_load : value -> option value) (w : world)
    (workflowName : string) : value :=
  match get_prop EMBEDDED_WORKFLOWS workflowName with
  | Ret embeddedWorkflow =>
      if truthy embeddedWorkflow then
        match yaml_load embeddedWorkflow with
        | Some v => v
        | None => getFallbackWorkflow workflowName
        end
      else
        match workflow_from_storage yaml_load w workflowName with
        | Ret (Some v) => v
        | _ => getFallbackWorkflow workflowName
        end
  | Throw _ => getFallbackWorkflow workflowName
  end.

(** ** Hosts of the examples *)

(** A host without bundled files and without storage. *)
Definition offline : world :=
  {| fetch := fun _ => Ret {| ok := false; status := 404; text := Ret "" |};
     storage_local_get := fun _ => Throw (ErrorObj "Error" "storage is not available") |}.

(** A host whose calls reject without a reason: the caught value is
    [undefined]. *)
Definition rejecting_with_undefined : world :=
  {| fetch := fun _ => Throw (Val VUndef);
     storage_local_get := fun _ => Ret VUndef |}.

(** A host whose bundled files arrive but hold no document. *)
Definition serving_garbage : world :=
  {| fetch := fun _ => Ret {| ok := true; status := 200; text := Ret "{" |};
     storage_local_get := storage_local_get offline |}.

(** A bundled config with one agent, served by a host that has the file. *)
Definition serving_config : world :=
  {| fetch := fun _ => Ret {| ok := true; status := 200; text := Ret "config" |};
     storage_local_get := storage_local_get offline |}.

Definition parsed_config : value :=
  VObj [ ("agents", VObj [ ("gleif-agent-1", VObj [ ("secret", VStr "s1") ]) ]);
         ("identifiers", VObj []) ].

(** ** The shape of the template *)

(** What the module's calls keep of the template: its identifiers, users and
    credentials, [browser_extension] as the one key of [secrets] and of
    [agents], and on the agent entry distinct keys with the [secret] it was
    loaded with. *)
Definition template_shape (s : store) : Prop :=
  identifiers_obj s = identifiers_obj initial_store
  /\ users_arr s = users_arr initial_store
  /\ credentials_obj s = credentials_obj initial_store
  /\ (exists secret, secrets_obj s = [ ("browser_extension", secret) ])
  /\ (exists entry,
         agents_obj s = [ ("browser_extension", VObj entry) ]
         /\ NoDup (map fst entry)
         /\ lookup "secret" entry = Some (VStr "browser_extension")).

(** A host that has the bundled file with the given text. *)
Definition serving (body : string) : world :=
  {| fetch := fun _ => Ret {| ok := true; status := 200; text := Ret body |};
     storage_local_get := storage_local_get offline |}.

(** A host without bundled files whose storage holds one document under
    every key. *)
Definition storing (document : value) : world :=
  {| fetch := fetch offline;
     storage_local_get := fun _ => Ret document |}.

(** ** The update of a parsed config in two steps *)

(** The first statement of the block [if (runtimeValues) { ... }] of the
    file branch: the ['gleif-agent-1'] entry. *)
Definition update_agent_entry (config runtimeValues : value) : outcome value :=
  agents <- get_prop config "agents" ;;
  entry <- (if truthy agents then get_prop agents "gleif-agent-1" else Ret agents) ;;
  if truthy entry then
    agentUrl <- get_prop runtimeValues "agentUrl" ;;
    bootUrl <- get_prop runtimeValues "bootUrl" ;;
    passcode <- get_prop runtimeValues "passcode" ;;
    bran <- get_prop runtimeValues "bran" ;;
    agents' <- set_prop agents "gleif-agent-1"
                 (with_runtime_values entry agentUrl bootUrl passcode bran) ;;
    Ret (mutated config "agents" agents')
  else Ret config.

(** The statements after it: the top level and the identifiers. *)
Definition update_top_level (config runtimeValues : value) : outcome value :=
  agentUrl <- get_prop runtimeValues "agentUrl" ;;
  config <- set_prop config "agentUrl" agentUrl ;;
  bootUrl <- get_prop runtimeValues "bootUrl" ;;
  config <- set_prop config "bootUrl" bootUrl ;;
  bran <- get_prop runtimeValues "bran" ;;
  config <- (if truthy bran then set_prop config "bran" bran else Ret config) ;;
  aidName <- get_prop runtimeValues "aidName" ;;
  identifiers <- (if truthy aidName then get_prop config "identifiers" else Ret aidName) ;;
  if truthy identifiers then
    key <- to_property_key aidName ;;
    identifiers' <- set_prop identifiers key
                      (VObj (literal [ ("agent", VStr "gleif-agent-1");
                                       ("name", aidName) ])) ;;
    Ret (mutated config "identifiers" identifiers')
  else Ret config.

(** The top level of a parsed object after the statements
    [config.agentUrl = ...], [config.bootUrl = ...] and
    [if (runtimeValues.bran) config.bran = ...]. *)
Definition with_top_level (top : props) (runtimeValues : value) : props :=
  let top := assign "agentUrl" (prop_of runtimeValues "agentUrl") top in
  let top := assign "bootUrl" (prop_of runtimeValues "bootUrl") top in
  if truthy (prop_of runtimeValues "bran")
  then assign "bran" (prop_of runtimeValues "bran") top
  else top.

(** * Properties *)

(** Comparisons of string literals compute; a comparison with a variable
    stays folded. *)
#[local] Arguments String.eqb !s1 !s2 : simpl nomatch.

(** ** Property lists *)

Section PropertyListFacts.
Context {A : Type}.
Implicit Types (k : string) (l : list (string * A)).

Lemma lookup_assign_same k a l : lookup k (assign k a l) = Some a.
Proof.
  induction l as [| [k' a'] l IH]; simpl.
  - now rewrite String.eqb_refl.
  - destruct (k' =? k) eqn:E; simpl; rewrite E; auto.
Qed.

Lemma lookup_assign_other k k' a l :
  k <> k' -> lookup k (assign k' a l) = lookup k l.
Proof.
  intros Hne. induction l as [| [k0 a0] l IH]; simpl.
  - destruct (k' =? k) eqn:E; auto.
    apply String.eqb_eq in E. congruence.
  - destruct (k0 =? k') eqn:E; simpl.
    + apply String.eqb_eq in E. subst k0.
      destruct (k' =? k) eqn:E'; auto.
      apply String.eqb_eq in E'. congruence.
    + destruct (k0 =? k); auto.
Qed.

Lemma lookup_remove_same k l : lookup k (remove k l) = None.
Proof.
  induction l as [| [k' a'] l IH]; simpl; auto.
  destruct (k' =? k) eqn:E; simpl; auto. now rewrite E.
Qed.

Lemma lookup_remove_other k k' l :
  k <> k' -> lookup k (remove k' l) = lookup k l.
Proof.
  intros Hne. induction l as [| [k0 a0] l IH]; simpl; auto.
  destruct (k0 =? k') eqn:E; simpl.
  - apply String.eqb_eq in E. subst k0.
    destruct (k' =? k) eqn:E'; auto.
    apply String.eqb_eq in E'. congruence.
  - now rewrite IH.
Qed.

(** A key defined several times keeps the last definition. *)
Lemma lookup_fold_assign k (entries acc : list (string * A)) :
  lookup k (fold_left (fun acc kv => assign (fst kv) (snd kv) acc) entries acc)
  = match lookup k (rev entries) with
    | Some a => Some a
    | None => lookup k acc
    end.
Proof.
  revert acc. induction entries as [| [k' a'] entries IH]; intros acc; simpl; auto.
  rewrite IH. clear IH.
  assert (Happ : forall l1,
             lookup k (l1 ++ [(k', a')])
             = match lookup k l1 with
               | Some a => Some a
               | None => if k' =? k then Some a' else None
               end).
  { induction l1 as [| [k1 a1] l1 IH1]; simpl; auto.
    destruct (k1 =? k); auto. }
  rewrite Happ. destruct (lookup k (rev entries)); auto.
  destruct (k' =? k) eqn:E.
  - apply String.eqb_eq in E. subst k'. apply lookup_assign_same.
  - apply lookup_assign_other. apply String.eqb_neq in E. congruence.
Qed.

Lemma lookup_literal k (entries : list (string * A)) :
  lookup k (literal entries) = lookup k (rev entries).
Proof.
  unfold literal. rewrite lookup_fold_assign. simpl.
  now destruct (lookup k (rev entries)).
Qed.

Lemma lookup_app k (l1 l2 : list (string * A)) :
  lookup k (l1 ++ l2)
  = match lookup k l1 with
    | Some a => Some a
    | None => lookup k l2
    end.
Proof.
  induction l1 as [| [k1 a1] l1 IH]; simpl; auto.
  destruct (k1 =? k); auto.
Qed.
End PropertyListFacts.

(** ** Errors *)

Lemma message_of_throws e e' :
  message_of e = Throw e' -> exists msg, e' = TypeError msg.
Proof.
  destruct e as [kind msg | v]; simpl; [discriminate |].
  destruct v as [| | b | n | s | ps | ps | tag]; simpl; try discriminate;
    try (destruct (lookup "message" ps); discriminate);
    intros [= <-]; eauto.
Qed.

(** A conversion to a string throws nothing but [Error] objects. *)
Lemma to_string_throws v e :
  to_string v = Throw e -> exists kind msg, e = ErrorObj kind msg.
Proof.
  unfold to_string. destruct (conversion v) as [str | [kind msg]]; [discriminate |].
  intros [= <-]. eauto.
Qed.

Lemma log_message_throws e e' :
  log_message e = Throw e' -> exists kind msg, e' = ErrorObj kind msg.
Proof.
  unfold log_message, bind. destruct (message_of e) as [m | e0] eqn:Hm.
  - apply to_string_throws.
  - intros [= <-]. apply message_of_throws in Hm as (msg & ->). unfold TypeError. eauto.
Qed.

Lemma log_thrown_throws e e' :
  log_thrown e = Throw e' -> exists kind msg, e' = ErrorObj kind msg.
Proof.
  destruct e as [kind msg | v]; simpl; [discriminate |].
  apply to_string_throws.
Qed.


Lemma loggable_ret e :
  loggable e = true -> exists line, log_message e = Ret line.
Proof.
  unfold loggable. destruct (log_message e); [eauto | discriminate].
Qed.

Lemma not_loggable_throws e :
  loggable e = false -> exists kind msg, log_message e = Throw (ErrorObj kind msg).
Proof.
  unfold loggable. destruct (log_message e) as [line | e'] eqn:H; [discriminate |].
  intros _. apply log_message_throws in H as (kind & msg & ->). eauto.
Qed.

(** ** Workflows *)

Section WorkflowFacts.
Variable yaml_load : value -> option value.

Lemma yaml_load_js_cases input :
  (exists v, yaml_load input = Some v /\ yaml_load_js yaml_load input = Ret v)
  \/ (yaml_load input = None
      /\ yaml_load_js yaml_load input = Throw (ErrorObj "YAMLException" "")).
Proof.
  unfold yaml_load_js. destruct (yaml_load input); eauto.
Qed.

(** The storage tier returns a parse or falls through; it throws only
    when its [catch] cannot log what it caught. *)
Lemma workflow_from_storage_cases w name :
  (exists r, workflow_from_storage yaml_load w name = Ret r
             /\ match r with
                | Some v => exists input, yaml_load input = Some v
                | None => True
                end)
  \/ (exists kind msg,
         workflow_from_storage yaml_load w name = Throw (ErrorObj kind msg)).
Proof.
  unfold workflow_from_storage, try_catch, bind.
  destruct (storage_local_get w _) as [stored | e].
  - left. destruct (truthy stored); [| now exists None].
    destruct (yaml_load_js_cases stored) as [(v & Hv & ->) | (_ & ->)].
    + exists (Some v). eauto.
    + now exists None.
  - destruct (log_thrown e) as [line | e'] eqn:Hlog.
    + left. now exists None.
    + right. apply log_thrown_throws in Hlog as (kind & msg & ->). eauto.
Qed.

(** A storage that is unavailable gives no document. *)
Lemma workflow_from_storage_unavailable w name :
  storage_unavailable (storage_local_get w ("workflow_" ++ name)) = true ->
  workflow_from_storage yaml_load w name = Ret None
  \/ exists kind msg, workflow_from_storage yaml_load w name = Throw (ErrorObj kind msg).
Proof.
  unfold storage_unavailable, workflow_from_storage, try_catch, bind.
  destruct (storage_local_get w _) as [stored | e].
  - destruct (truthy stored); [discriminate | auto].
  - intros _. destruct (log_thrown e) as [line | e'] eqn:Hlog; [auto |].
    right. apply log_thrown_throws in Hlog as (kind & msg & ->). eauto.
Qed.

Lemma get_embedded_returns name :
  exists v, get_prop EMBEDDED_WORKFLOWS name = Ret v.
Proof.
  unfold EMBEDDED_WORKFLOWS, get_prop.
  destruct (lookup name _); eauto.
Qed.

(** What the inner [catch] can do: return a parse or the hardcoded
    definition, or throw an [Error] object. *)
Lemma workflow_fallbacks_cases w name fetchError :
  (exists v, workflow_fallbacks yaml_load w name fetchError = Ret v
             /\ (v = getFallbackWorkflow name \/ exists input, yaml_load input = Some v))
  \/ (exists kind msg,
         workflow_fallbacks yaml_load w name fetchError = Throw (ErrorObj kind msg)).
Proof.
  unfold workflow_fallbacks, bind.
  destruct (log_message fetchError) as [line | e] eqn:Hm.
  - destruct (get_embedded_returns name) as (emb & ->).
    destruct (truthy emb).
    + destruct (yaml_load_js_cases emb) as [(v & Hv & ->) | (_ & ->)]; eauto 6.
    + destruct (workflow_from_storage_cases w name)
        as [([v |] & -> & Hr) | (kind & msg & ->)].
      * left. eauto.
      * left. eauto.
      * right. eauto.
  - right. apply log_message_throws in Hm as (kind & msg & ->). eauto.
Qed.

Lemma workflow_from_file_cases w name :
  (exists v, workflow_from_file yaml_load w name = Ret v
             /\ exists input, yaml_load input = Some v)
  \/ (exists e, workflow_from_file yaml_load w name = Throw e).
Proof.
  unfold workflow_from_file, bind.
  destruct (fetch w _) as [resp | e]; [| eauto].
  destruct (negb (ok resp)); [eauto |].
  destruct (text resp) as [body | e]; [| eauto].
  destruct (yaml_load_js_cases (VStr body)) as [(v & Hv & ->) | (_ & ->)]; eauto 6.
Qed.

(** An unavailable file makes the inner [try] throw; what it throws is
    loggable exactly if the failure is. *)
Lemma workflow_from_file_unavailable w name :
  file_unavailable (fetch w ("src/workflows/" ++ name ++ ".yaml")) = true ->
  exists e, workflow_from_file yaml_load w name = Throw e
            /\ loggable e = failure_loggable (fetch w ("src/workflows/" ++ name ++ ".yaml")).
Proof.
  unfold workflow_from_file, file_unavailable, failure_loggable, bind.
  destruct (fetch w _) as [resp | e]; [| eauto].
  destruct (ok resp); simpl; [| eauto].
  destruct (text resp) as [body | e]; [discriminate | eauto].
Qed.

(** The inner [catch] looks at the caught value only to log its message. *)
Lemma workflow_fallbacks_any_error w name e1 e2 :
  loggable e1 = true -> loggable e2 = true ->
  workflow_fallbacks yaml_load w name e1 = workflow_fallbacks yaml_load w name e2.
Proof.
  intros H1 H2. unfold workflow_fallbacks, bind.
  apply loggable_ret in H1 as (v1 & ->).
  apply loggable_ret in H2 as (v2 & ->).
  reflexivity.
Qed.

(** Once the failure of the bundled file is logged, the tiers after it
    decide. *)
Lemma loadWorkflow_unavailable w name e :
  workflow_from_file yaml_load w name = Throw e ->
  loggable e = true ->
  loadWorkflow yaml_load w name = Ret (workflow_after_file yaml_load w name).
Proof.
  intros Hfile Hmsg. unfold loadWorkflow, workflow_after_file, try_catch. rewrite Hfile.
  unfold workflow_fallbacks, bind.
  apply loggable_ret in Hmsg as (m & ->).
  destruct (get_embedded_returns name) as (emb & ->).
  destruct (truthy emb).
  - unfold yaml_load_js. destruct (yaml_load emb); reflexivity.
  - destruct (workflow_from_storage_cases w name)
      as [([v |] & -> & _) | (kind & msg & ->)]; reflexivity.
Qed.

(** When the failure cannot be logged, the inner [catch] throws at its first
    statement and the outer one answers. *)
Lemma loadWorkflow_not_logged w name e :
  workflow_from_file yaml_load w name = Throw e ->
  loggable e = false ->
  loadWorkflow yaml_load w name = Ret (getFallbackWorkflow name).
Proof.
  intros Hfile Hmsg. unfold loadWorkflow, try_catch. rewrite Hfile.
  unfold workflow_fallbacks, bind.
  apply not_loggable_throws in Hmsg as (kind & msg & ->). reflexivity.
Qed.
End WorkflowFacts.

(** C5.  [loadWorkflow] never throws into its caller: whatever the fetch,
    the embedded table, the storage and the parser do, it returns a value,
    and that value is a result of [yaml.load] or the hardcoded definition for
    the name (a fixed structure or [null]). *)
Theorem loadWorkflow_never_throws :
  forall (yaml_load : value -> option value) (w : world) (workflowName : string),
  exists v,
    loadWorkflow yaml_load w workflowName = Ret v
    /\ (v = getFallbackWorkflow workflowName
        \/ exists input, yaml_load input = Some v).
Proof.
  intros yaml_load w name. unfold loadWorkflow, try_catch.
  destruct (workflow_from_file_cases yaml_load w name) as [(v & -> & Hv) | (e & ->)].
  - eauto.
  - destruct (workflow_fallbacks_cases yaml_load w name e)
      as [(v & -> & Hv) | (kind & msg & ->)]; simpl; eauto.
Qed.

Lemma embedded_absent_no_fallback name :
  get_prop EMBEDDED_WORKFLOWS name = Ret VUndef ->
  getFallbackWorkflow name = VNull.
Proof.
  unfold get_prop, EMBEDDED_WORKFLOWS, getFallbackWorkflow. simpl.
  rewrite (String.eqb_sym name "create-client-workflow").
  rewrite (String.eqb_sym name "create-client").
  rewrite (String.eqb_sym name "create-aid-workflow").
  destruct ("create-client" =? name); [discriminate |].
  destruct ("create-client-workflow" =? name); [discriminate |].
  destruct ("create-aid-workflow" =? name); [discriminate |].
  reflexivity.
Qed.

(** C6, as the code has it.  With the bundled file unavailable and the
    failure logged by the inner [catch], a name of the hardcoded set is
    answered by the embedded table: the result is the parse of the embedded
    document of that name, whatever the storage holds, and the hardcoded
    definition if that parse throws; a name that the embedded table does not
    answer, with the storage unavailable too, is answered by the hardcoded
    definitions, which have none for it: [null].  When the inner [catch]
    cannot log the failure (a rejection with [undefined] or [null], a
    message that does not convert to a string), it throws before it looks
    at the embedded table, and the result is the hardcoded definition of the
    name. *)
Theorem loadWorkflow_file_unavailable :
  forall (yaml_load : value -> option value) (w : world) (workflowName : string),
    file_unavailable (fetch w ("src/workflows/" ++ workflowName ++ ".yaml")) = true ->
    (failure_loggable (fetch w ("src/workflows/" ++ workflowName ++ ".yaml")) = true ->
     (In workflowName fallback_names ->
      exists document,
        get_prop EMBEDDED_WORKFLOWS workflowName = Ret (VStr document)
        /\ loadWorkflow yaml_load w workflowName
           = Ret match yaml_load (VStr document) with
                 | Some v => v
                 | None => getFallbackWorkflow workflowName
                 end)
     /\ (get_prop EMBEDDED_WORKFLOWS workflowName = Ret VUndef ->
         storage_unavailable (storage_local_get w ("workflow_" ++ workflowName)) = true ->
         loadWorkflow yaml_load w workflowName = Ret VNull
         /\ getFallbackWorkflow workflowName = VNull))
    /\ (failure_loggable (fetch w ("src/workflows/" ++ workflowName ++ ".yaml")) = false ->
        loadWorkflow yaml_load w workflowName = Ret (getFallbackWorkflow workflowName)).
Proof.
  intros yaml_load w name Hfile.
  destruct (workflow_from_file_unavailable yaml_load w name Hfile) as (e & He & Hmsg).
  split; intros Hlog; rewrite Hlog in Hmsg.
  - pose proof (loadWorkflow_unavailable yaml_load w name e He Hmsg) as Hload.
    split.
    + intros Hin. simpl in Hin.
      destruct Hin as [<- | [<- | [<- | []]]];
        (eexists; split; [reflexivity |]);
        rewrite Hload; unfold workflow_after_file; simpl;
        destruct (yaml_load _); reflexivity.
    + intros Hemb Hstore. rewrite Hload. unfold workflow_after_file. rewrite Hemb. simpl.
      pose proof (embedded_absent_no_fallback name Hemb) as Hnull.
      rewrite Hnull. split; [| reflexivity].
      destruct (workflow_from_storage_unavailable yaml_load w name Hstore)
        as [-> | (kind & msg & ->)]; reflexivity.
  - now apply loadWorkflow_not_logged with e.
Qed.

Lemma loadWorkflow_file_unavailable_witness :
  loadWorkflow Yaml.load offline "create-aid-workflow"
  = Ret (VObj [ ("workflow",
                 VObj [ ("steps",
                         VObj [ ("gleif_aid",
                                 VObj [ ("id", VStr "gleif_aid");
                                        ("type", VStr "create_aid");
                                        ("aid", VStr "gleif-aid-1");
                                        ("description", VStr "Creating AID for gleif-aid-1") ]) ]) ]) ])
  /\ loadWorkflow Yaml.load offline "unknown-workflow" = Ret VNull
  /\ loadWorkflow Yaml.load rejecting_with_undefined "create-aid-workflow"
     = Ret (VObj [ ("workflow",
                    VObj [ ("steps",
                            VObj [ ("gleif_aid",
                                    VObj [ ("id", VStr "gleif_aid");
                                           ("type", VStr "create_aid");
                                           ("aid", VStr "gleif-aid-1");
                                           ("description",
                                            VStr "Creating AID for gleif-aid-1 (FALLBACK)") ]) ]) ]) ]).
Proof.
  assert (Hfile : forall name,
             file_unavailable (fetch offline ("src/workflows/" ++ name ++ ".yaml")) = true)
    by reflexivity.
  split; [| split].
  - destruct (loadWorkflow_file_unavailable Yaml.load offline "create-aid-workflow"
                (Hfile _)) as [Hlogged _].
    destruct (Hlogged eq_refl) as [Hin _].
    destruct Hin as (document & Hdoc & Hload).
    + simpl. auto.
    + injection Hdoc as <-. exact Hload.
  - destruct (loadWorkflow_file_unavailable Yaml.load offline "unknown-workflow"
                (Hfile _)) as [Hlogged _].
    destruct (Hlogged eq_refl) as [_ Habsent].
    apply Habsent; reflexivity.
  - destruct (loadWorkflow_file_unavailable Yaml.load rejecting_with_undefined
                "create-aid-workflow" eq_refl) as [_ Hnot].
    exact (Hnot eq_refl).
Defined.

(** C6, as the claim has it, fails: with the file and the storage
    unavailable, ['create-client'] resolves to the parse of the embedded
    document, whose description differs from the hardcoded definition's. *)
Lemma loadWorkflow_create_client_not_hardcoded :
  In "create-client" fallback_names
  /\ file_unavailable (fetch offline "src/workflows/create-client.yaml") = true
  /\ storage_unavailable (storage_local_get offline "workflow_create-client") = true
  /\ loadWorkflow Yaml.load offline "create-client"
     = Ret (VObj [ ("workflow",
                    VObj [ ("steps",
                            VObj [ ("gleif_client",
                                    VObj [ ("id", VStr "gleif_client");
                                           ("type", VStr "create_client");
                                           ("agent_name", VStr "gleif-agent-1");
                                           ("description", VStr "Creating client for gleif agent") ]) ]) ]) ])
  /\ loadWorkflow Yaml.load offline "create-client"
     <> Ret (getFallbackWorkflow "create-client").
Proof.
  repeat split; try reflexivity.
  - simpl. auto.
  - discriminate.
Qed.

(** ** Configs *)

Lemma get_prop_truthy base k :
  truthy base = true -> get_prop base k = Ret (prop_of base k).
Proof.
  unfold prop_of.
  destruct base as [| | b | n | str | ps | ps | tag]; simpl;
    try discriminate; intros _; try reflexivity;
    destruct (lookup k ps); reflexivity.
Qed.

Lemma aid_key_throws runtimeValues e :
  aid_key runtimeValues = Throw e -> exists kind msg, e = ErrorObj kind msg.
Proof.
  unfold aid_key, to_property_key, bind.
  destruct (truthy (prop_of runtimeValues "aidName")); [| discriminate].
  destruct (to_string _) as [key | e'] eqn:Hkey; [discriminate |].
  intros [= <-]. now apply to_string_throws in Hkey.
Qed.

(** The default branch, once the failure is logged: the writes to the
    template come first, the key of the identifier entry is computed last. *)
Lemma config_from_default_logged fetchError runtimeValues s :
  loggable fetchError = true ->
  config_from_default fetchError runtimeValues s
  = if truthy runtimeValues
    then (match aid_key runtimeValues with
          | Ret _ => Ret (Copied (copy_after runtimeValues s))
          | Throw e => Throw e
          end,
          template_after runtimeValues s)
    else (Ret (Copied DEFAULT_CLIENT_CONFIG), s).
Proof.
  intros Hmsg. apply loggable_ret in Hmsg as (m & Hm).
  unfold config_from_default, mbind, lift, mret. rewrite Hm.
  destruct (truthy runtimeValues) eqn:Hrv; [| reflexivity].
  unfold copy_after, aid_key, template_after.
  rewrite !(get_prop_truthy runtimeValues) by assumption.
  generalize (prop_of runtimeValues "passcode") (prop_of runtimeValues "agentUrl")
    (prop_of runtimeValues "bootUrl") (prop_of runtimeValues "bran")
    (prop_of runtimeValues "aidName").
  intros passcode agentUrl bootUrl bran aidName.
  destruct s as [secrets agents identifiers users credentials].
  unfold prop_of, read_member, write_member, get_prop, bind.
  destruct (truthy passcode); simpl;
    (destruct (lookup "browser_extension" agents) as [entry |]; simpl;
     [ destruct (truthy entry); simpl | ]);
    destruct (truthy bran); simpl;
    (destruct (truthy aidName); [destruct (to_property_key aidName) |]); reflexivity.
Qed.

Lemma config_from_default_truthy fetchError runtimeValues s key :
  loggable fetchError = true ->
  truthy runtimeValues = true ->
  aid_key runtimeValues = Ret key ->
  config_from_default fetchError runtimeValues s
  = (Ret (Copied (copy_after runtimeValues s)), template_after runtimeValues s).
Proof.
  intros Hmsg Hrv Hkey. rewrite config_from_default_logged by assumption.
  now rewrite Hrv, Hkey.
Qed.

Lemma config_from_default_falsy fetchError runtimeValues s :
  loggable fetchError = true ->
  truthy runtimeValues = false ->
  config_from_default fetchError runtimeValues s = (Ret (Copied DEFAULT_CLIENT_CONFIG), s).
Proof.
  intros Hmsg Hrv. rewrite config_from_default_logged by assumption.
  now rewrite Hrv.
Qed.

Lemma config_from_default_no_message fetchError runtimeValues s :
  loggable fetchError = false ->
  exists kind msg,
    config_from_default fetchError runtimeValues s = (Throw (ErrorObj kind msg), s).
Proof.
  intros Hmsg. apply not_loggable_throws in Hmsg as (kind & msg & Hm).
  unfold config_from_default, mbind, lift. rewrite Hm. eauto.
Qed.

Section ConfigFacts.
Variable JSON_parse : string -> option value.

(** An unavailable file makes the inner [try] throw; what it throws is
    loggable exactly if the failure is. *)
Lemma config_from_file_unavailable w name runtimeValues :
  file_unavailable (fetch w ("src/user_config/" ++ name ++ ".json")) = true ->
  exists e, config_from_file JSON_parse w name runtimeValues = Throw e
            /\ loggable e
               = failure_loggable (fetch w ("src/user_config/" ++ name ++ ".json")).
Proof.
  unfold config_from_file, file_unavailable, failure_loggable, bind.
  destruct (fetch w _) as [resp | e]; [| eauto].
  destruct (ok resp); simpl; [| eauto].
  destruct (text resp) as [body | e]; [discriminate | eauto].
Qed.

Lemma loadConfig_from_file w name runtimeValues s v :
  config_from_file JSON_parse w name runtimeValues = Ret v ->
  loadConfig JSON_parse w name runtimeValues s = (Ret (Parsed v), s).
Proof.
  intros H. unfold loadConfig, mtry, mbind, lift, mret. now rewrite H.
Qed.

(** The default branch as a whole: an error at the key of the identifier
    entry is answered by the outer [catch] with [null]. *)
Lemma loadConfig_from_default w name runtimeValues s e :
  config_from_file JSON_parse w name runtimeValues = Throw e ->
  loggable e = true ->
  loadConfig JSON_parse w name runtimeValues s = default_config runtimeValues s.
Proof.
  intros H Hmsg. unfold loadConfig, default_config, mtry, mbind, lift, mret. rewrite H.
  rewrite config_from_default_logged by assumption.
  destruct (truthy runtimeValues); [| reflexivity].
  destruct (aid_key runtimeValues) as [key | e'] eqn:Hkey; [reflexivity |].
  apply aid_key_throws in Hkey as (kind & msg & ->). reflexivity.
Qed.

Lemma loadConfig_null w name runtimeValues s e :
  config_from_file JSON_parse w name runtimeValues = Throw e ->
  loggable e = false ->
  loadConfig JSON_parse w name runtimeValues s = (Ret (Parsed VNull), s).
Proof.
  intros H Hmsg. unfold loadConfig, mtry, mbind, lift, mret. rewrite H.
  destruct (config_from_default_no_message e runtimeValues s Hmsg) as (kind & msg & ->).
  reflexivity.
Qed.

Lemma default_config_returns runtimeValues s :
  exists c s',
    default_config runtimeValues s = (Ret c, s')
    /\ (s' = s \/ s' = template_after runtimeValues s).
Proof.
  unfold default_config. destruct (truthy runtimeValues); [| eauto].
  destruct (aid_key runtimeValues); eauto.
Qed.

(** [loadConfig] resolves, never rejects; it leaves the template alone or
    in the state [template_after]. *)
Lemma loadConfig_returns w name runtimeValues s :
  exists c s',
    loadConfig JSON_parse w name runtimeValues s = (Ret c, s')
    /\ (s' = s \/ s' = template_after runtimeValues s).
Proof.
  destruct (config_from_file JSON_parse w name runtimeValues) as [v | e] eqn:Hfile.
  - rewrite (loadConfig_from_file _ _ _ _ _ Hfile). eauto.
  - destruct (loggable e) eqn:Hmsg.
    + rewrite (loadConfig_from_default _ _ _ _ _ Hfile Hmsg).
      apply default_config_returns.
    + rewrite (loadConfig_null _ _ _ _ _ Hfile Hmsg). eauto.
Qed.

Lemma template_after_agent_entry runtimeValues s :
  agent_entry_present s -> agent_entry_present (template_after runtimeValues s).
Proof.
  intros (entry & Hentry). unfold template_after, agent_entry_present.
  destruct s as [secrets agents identifiers users credentials]. simpl in *.
  assert (Hagents : forall b : bool,
             agents_obj (if b
                         then store_put RSecrets
                                (assign "browser_extension"
                                   (prop_of runtimeValues "passcode") secrets)
                                (mkStore secrets agents identifiers users credentials)
                         else mkStore secrets agents identifiers users credentials)
             = agents)
    by (intros []; reflexivity).
  rewrite Hagents. unfold prop_of at 1 3. simpl. rewrite Hentry. simpl.
  unfold with_runtime_values.
  destruct (truthy (prop_of runtimeValues "passcode")); simpl;
    rewrite lookup_assign_same; eauto.
Qed.

Lemma reachable_agent_entry s :
  reachable JSON_parse s -> agent_entry_present s.
Proof.
  induction 1 as [| w name rv s Hs IH | random s Hs IH].
  - unfold agent_entry_present. simpl. eauto.
  - destruct (loadConfig_returns w name rv s) as (c & s' & -> & [-> | ->]); simpl.
    + exact IH.
    + now apply template_after_agent_entry.
  - destruct IH as (entry & Hentry). exists entry.
    destruct s as [secrets agents identifiers users credentials].
    exact Hentry.
Qed.
End ConfigFacts.

(** The fields of the rebuilt agent entry. *)
Lemma with_runtime_values_lookup entry agentUrl bootUrl passcode bran k :
  exists ps,
    with_runtime_values entry agentUrl bootUrl passcode bran = VObj ps
    /\ lookup k ps
       = match lookup k (rev (bran_if_provided bran)) with
         | Some v => Some v
         | None =>
             match lookup k [ ("passcode", passcode); ("boot_url", bootUrl);
                              ("url", agentUrl) ] with
             | Some v => Some v
             | None => lookup k (rev (own_enumerable entry))
             end
         end.
Proof.
  unfold with_runtime_values. eexists. split; [reflexivity |].
  rewrite lookup_literal, !rev_app_distr, !lookup_app.
  destruct (lookup k (rev (bran_if_provided bran))); reflexivity.
Qed.

Lemma with_runtime_values_fields entry agentUrl bootUrl passcode bran :
  at_path (with_runtime_values entry agentUrl bootUrl passcode bran) [ "url" ] = agentUrl
  /\ at_path (with_runtime_values entry agentUrl bootUrl passcode bran) [ "boot_url" ] = bootUrl
  /\ at_path (with_runtime_values entry agentUrl bootUrl passcode bran) [ "passcode" ] = passcode
  /\ (truthy bran = true ->
      at_path (with_runtime_values entry agentUrl bootUrl passcode bran) [ "bran" ] = bran).
Proof.
  repeat split; [| | | intros Hbran];
    match goal with
    | |- at_path _ [ ?k ] = _ =>
        destruct (with_runtime_values_lookup entry agentUrl bootUrl passcode bran k)
          as (ps & -> & Hk)
    end;
    simpl; rewrite Hk; unfold bran_if_provided;
    try rewrite Hbran; destruct (truthy bran); reflexivity.
Qed.

Lemma lookup_map_values {A B : Type} (f : A -> B) k (l : list (string * A)) :
  lookup k (map (fun ks : string * A => (fst ks, f (snd ks))) l)
  = option_map f (lookup k l).
Proof.
  induction l as [| [k' a] l IH]; simpl; auto.
  destruct (k' =? k); auto.
Qed.

Lemma at_path_cons ps k rest :
  at_path (VObj ps) (k :: rest)
  = match lookup k ps with
    | Some v => at_path v rest
    | None => VUndef
    end.
Proof. reflexivity. Qed.

(** Reading a path of a copied config goes through its slots. *)
Lemma at_path_copied s o k rest :
  at_path (snapshot s (Copied o)) (k :: rest)
  = match lookup k o with
    | Some sl => at_path (read_slot s sl) rest
    | None => VUndef
    end.
Proof.
  unfold snapshot. rewrite at_path_cons, lookup_map_values.
  now destruct (lookup k o).
Qed.

#[local] Arguments at_path : simpl never.

(** C3, as the code has it.  With the bundled file unavailable and the
    overlay [{agentUrl: U, bootUrl: B, passcode: P, bran: BR}] (strings, [P]
    and [BR] not empty, as the literals ["P"] and ["BR"] are), in every state
    of the template that the module can be in: when the inner [catch] can
    log the failure, [loadConfig] resolves to a config whose default agent
    entry has [url = U], [boot_url = B], [passcode = P], [bran = BR], whose
    default secret is [P] and whose top level has [agentUrl = U],
    [bootUrl = B], [bran = BR]; when it cannot (a rejection with [undefined]
    or [null], a message that does not convert to a string), [loadConfig]
    resolves to [null] and writes nothing. *)
Theorem loadConfig_default_overlay :
  forall (JSON_parse : string -> option value) (w : world) (configName : string)
         (s : store) (U B P BR : string),
    reachable JSON_parse s ->
    file_unavailable (fetch w ("src/user_config/" ++ configName ++ ".json")) = true ->
    P <> "" -> BR <> "" ->
    (failure_loggable (fetch w ("src/user_config/" ++ configName ++ ".json")) = true ->
     exists config s',
       loadConfig JSON_parse w configName
         (VObj [ ("agentUrl", VStr U); ("bootUrl", VStr B);
                 ("passcode", VStr P); ("bran", VStr BR) ]) s
       = (Ret config, s')
       /\ at_path (snapshot s' config) [ "agents"; "browser_extension"; "url" ] = VStr U
       /\ at_path (snapshot s' config) [ "agents"; "browser_extension"; "boot_url" ] = VStr B
       /\ at_path (snapshot s' config) [ "agents"; "browser_extension"; "passcode" ] = VStr P
       /\ at_path (snapshot s' config) [ "agents"; "browser_extension"; "bran" ] = VStr BR
       /\ at_path (snapshot s' config) [ "secrets"; "browser_extension" ] = VStr P
       /\ at_path (snapshot s' config) [ "agentUrl" ] = VStr U
       /\ at_path (snapshot s' config) [ "bootUrl" ] = VStr B
       /\ at_path (snapshot s' config) [ "bran" ] = VStr BR)
    /\ (failure_loggable (fetch w ("src/user_config/" ++ configName ++ ".json")) = false ->
        loadConfig JSON_parse w configName
          (VObj [ ("agentUrl", VStr U); ("bootUrl", VStr B);
                  ("passcode", VStr P); ("bran", VStr BR) ]) s
        = (Ret (Parsed VNull), s)).
Proof.
  intros JSON_parse w name s U B P BR Hreach Hfile HP HBR.
  destruct (config_from_file_unavailable JSON_parse w name
              (VObj [ ("agentUrl", VStr U); ("bootUrl", VStr B);
                      ("passcode", VStr P); ("bran", VStr BR) ]) Hfile)
    as (e & He & Hmsg).
  split; intros Hlog; rewrite Hlog in Hmsg;
    [| now apply loadConfig_null with e].
  rewrite (loadConfig_from_default _ _ _ _ _ _ He Hmsg).
  unfold default_config, aid_key, prop_of. simpl.
  do 2 eexists. split; [reflexivity |].
  destruct (reachable_agent_entry _ _ Hreach) as (entry & Hentry).
  assert (HPt : truthy (VStr P) = true)
    by (simpl; apply String.eqb_neq in HP; now rewrite HP).
  assert (HBRt : truthy (VStr BR) = true)
    by (simpl; apply String.eqb_neq in HBR; now rewrite HBR).
  destruct s as [secrets agents identifiers users credentials]. simpl in Hentry.
  destruct (with_runtime_values_fields (VObj entry) (VStr U) (VStr B) (VStr P) (VStr BR))
    as (Hurl & Hboot & Hpass & Hbran).
  specialize (Hbran HBRt).
  rewrite !at_path_copied.
  apply String.eqb_neq in HP, HBR.
  unfold copy_after, template_after, aid_key, prop_of. simpl.
  rewrite HP, HBR. simpl. rewrite Hentry. simpl.
  rewrite !at_path_cons, !lookup_assign_same.
  repeat split; try reflexivity; assumption.
Qed.

Lemma loadConfig_default_overlay_witness :
  (exists config s',
      loadConfig (fun _ => None) offline "client"
        (VObj [ ("agentUrl", VStr "U"); ("bootUrl", VStr "B");
                ("passcode", VStr "P"); ("bran", VStr "BR") ]) initial_store
      = (Ret config, s')
      /\ at_path (snapshot s' config) [ "agents"; "browser_extension"; "bran" ] = VStr "BR"
      /\ at_path (snapshot s' config) [ "secrets"; "browser_extension" ] = VStr "P")
  /\ loadConfig (fun _ => None) rejecting_with_undefined "client"
       (VObj [ ("agentUrl", VStr "U"); ("bootUrl", VStr "B");
               ("passcode", VStr "P"); ("bran", VStr "BR") ]) initial_store
     = (Ret (Parsed VNull), initial_store).
Proof.
  split.
  - destruct (loadConfig_default_overlay (fun _ => None) offline "client" initial_store
                "U" "B" "P" "BR") as [Hlogged _].
    + apply reach_initial.
    + reflexivity.
    + discriminate.
    + discriminate.
    + destruct (Hlogged eq_refl)
        as (config & s' & Hload & _ & _ & _ & Hbran & Hsecret & _).
      exists config, s'. auto.
  - destruct (loadConfig_default_overlay (fun _ => None) rejecting_with_undefined
                "client" initial_store "U" "B" "P" "BR") as [_ Hnot].
    + apply reach_initial.
    + reflexivity.
    + discriminate.
    + discriminate.
    + exact (Hnot eq_refl).
Defined.

(** C3, as the claim has it, fails: the bundled-file tier is unavailable
    also when the request is rejected without a reason, and then the
    [catch] that should build the default config throws while logging
    [fetchError.message]; the call resolves to [null]. *)
Lemma loadConfig_rejection_without_reason :
  file_unavailable (fetch rejecting_with_undefined "src/user_config/client.json") = true
  /\ config_from_file (fun _ => None) rejecting_with_undefined "client"
       (VObj [ ("agentUrl", VStr "U"); ("bootUrl", VStr "B");
               ("passcode", VStr "P"); ("bran", VStr "BR") ])
     = Throw (Val VUndef)
  /\ log_message (Val VUndef) = Throw (TypeError "Cannot read properties of undefined")
  /\ loadConfig (fun _ => None) rejecting_with_undefined "client"
       (VObj [ ("agentUrl", VStr "U"); ("bootUrl", VStr "B");
               ("passcode", VStr "P"); ("bran", VStr "BR") ]) initial_store
     = (Ret (Parsed VNull), initial_store)
  /\ at_path (snapshot initial_store (Parsed VNull)) [ "agents"; "browser_extension"; "url" ]
     <> VStr "U".
Proof.
  repeat split; try reflexivity. discriminate.
Qed.

(** C1, on the code.  The copy [{ ...DEFAULT_CLIENT_CONFIG }] is shallow, so
    the writes of a call reach the template.  After a first call with
    [passcode] and [bran], a second call whose overlay has neither returns a
    config with the first call's [passcode] as default secret and the first
    call's [bran] on the agent entry; the first call's config changes too,
    and [generatePasscodeAndConfig] leaves its passcode in the template. *)
Theorem loadConfig_second_call_sees_first_overlay :
  forall JSON_parse : string -> option value,
    let first := VObj [ ("agentUrl", VStr "U1"); ("bootUrl", VStr "B1");
                        ("passcode", VStr "P1"); ("bran", VStr "BR1") ] in
    let second := VObj [ ("agentUrl", VStr "U2"); ("bootUrl", VStr "B2") ] in
    exists config1 s1 config2 s2,
      loadConfig JSON_parse offline "client" first initial_store = (Ret config1, s1)
      /\ loadConfig JSON_parse offline "client" second s1 = (Ret config2, s2)
      /\ s1 <> initial_store
      /\ at_path (snapshot s2 config2) [ "secrets"; "browser_extension" ] = VStr "P1"
      /\ at_path (snapshot s2 config2) [ "agents"; "browser_extension"; "bran" ] = VStr "BR1"
      /\ at_path (snapshot s1 config1) [ "agents"; "browser_extension"; "url" ] = VStr "U1"
      /\ at_path (snapshot s2 config1) [ "agents"; "browser_extension"; "url" ] = VStr "U2"
      /\ secrets_obj (snd (generatePasscodeAndConfig (fun _ => 0%Q) initial_store))
         = [ ("browser_extension", VStr "AAAAAAAAAAAAAAAAAAAA") ].
Proof.
  intros JSON_parse first second.
  do 4 eexists.
  split; [vm_compute; reflexivity |].
  split; [vm_compute; reflexivity |].
  split; [discriminate |].
  repeat split; vm_compute; reflexivity.
Qed.

(** C2, on the code.  In the default branch an [aidName] adds an identifier
    whose [agent] is ["gleif-agent-1"], while the only agent of the template
    is [browser_extension]: the returned config breaks the invariant that the
    template itself satisfies. *)
Theorem loadConfig_default_aidName_names_missing_agent :
  forall JSON_parse : string -> option value,
    exists config s',
      loadConfig JSON_parse offline "client" (VObj [ ("aidName", VStr "my-aid") ])
        initial_store
      = (Ret config, s')
      /\ at_path (snapshot s' config) [ "identifiers"; "my-aid"; "agent" ]
         = VStr "gleif-agent-1"
      /\ has_at (snapshot s' config) [ "agents" ] "gleif-agent-1" = false
      /\ has_at (snapshot s' config) [ "agents" ] "browser_extension" = true
      /\ identifiers_reference_agents (snapshot s' config) = false
      /\ identifiers_reference_agents
           (snapshot initial_store (Copied DEFAULT_CLIENT_CONFIG)) = true.
Proof.
  intros JSON_parse. do 2 eexists.
  split; [vm_compute; reflexivity |].
  repeat split; vm_compute; reflexivity.
Qed.

(** C4, on the code.  On the template as loaded, an overlay without [bran]
    yields no [bran] key; after a call that had a [bran], the same overlay
    yields a config whose agent entry carries that earlier [bran] (the top
    level has none): the entry is rebuilt from the entry left in the shared
    [agents] object. *)
Theorem loadConfig_default_bran_left_by_earlier_call :
  forall JSON_parse : string -> option value,
    let earlier := VObj [ ("agentUrl", VStr "U1"); ("bootUrl", VStr "B1");
                          ("passcode", VStr "P1"); ("bran", VStr "BR1") ] in
    let overlay := VObj [ ("agentUrl", VStr "U2"); ("bootUrl", VStr "B2");
                          ("passcode", VStr "P2") ] in
    exists fresh s0 config1 s1 config2 s2,
      loadConfig JSON_parse offline "client" overlay initial_store = (Ret fresh, s0)
      /\ has_at (snapshot s0 fresh) [ "agents"; "browser_extension" ] "bran" = false
      /\ has_at (snapshot s0 fresh) [] "bran" = false
      /\ loadConfig JSON_parse offline "client" earlier initial_store = (Ret config1, s1)
      /\ loadConfig JSON_parse offline "client" overlay s1 = (Ret config2, s2)
      /\ has_at (snapshot s2 config2) [ "agents"; "browser_extension" ] "bran" = true
      /\ at_path (snapshot s2 config2) [ "agents"; "browser_extension"; "bran" ] = VStr "BR1"
      /\ has_at (snapshot s2 config2) [] "bran" = false.
Proof.
  intros JSON_parse earlier overlay. do 6 eexists.
  split; [vm_compute; reflexivity |].
  split; [vm_compute; reflexivity |].
  split; [vm_compute; reflexivity |].
  split; [vm_compute; reflexivity |].
  split; [vm_compute; reflexivity |].
  repeat split; vm_compute; reflexivity.
Qed.

(** C7.  [loadConfig] fails closed: when the bundled file fails and the
    default branch throws in its turn, the call resolves to [null]; it
    neither rejects nor returns a fallback object.  The default branch
    throws either at its log line, before it has written anything, or at
    the key of the identifier entry, when the overlay is already written
    into the template.  [loadWorkflow] in the same position returns its
    hardcoded definition. *)
Theorem loadConfig_fails_closed :
  forall (JSON_parse : string -> option value) (yaml_load : value -> option value)
         (w : world) (name : string) (runtimeValues : value) (s s' : store)
         (fetchError error : thrown),
    config_from_file JSON_parse w name runtimeValues = Throw fetchError ->
    config_from_default fetchError runtimeValues s = (Throw error, s') ->
    loadConfig JSON_parse w name runtimeValues s = (Ret (Parsed VNull), s')
    /\ ((log_message fetchError = Throw error /\ s' = s)
        \/ (loggable fetchError = true
            /\ truthy runtimeValues = true
            /\ truthy (prop_of runtimeValues "aidName") = true
            /\ to_property_key (prop_of runtimeValues "aidName") = Throw error
            /\ s' = template_after runtimeValues s))
    /\ (forall workflowError error',
           workflow_from_file yaml_load w name = Throw workflowError ->
           workflow_fallbacks yaml_load w name workflowError = Throw error' ->
           loadWorkflow yaml_load w name = Ret (getFallbackWorkflow name)).
Proof.
  intros JSON_parse yaml_load w name rv s s' fetchError error Hfile Hdefault.
  split; [| split].
  - unfold loadConfig, mtry, mbind, lift, mret. rewrite Hfile, Hdefault.
    destruct (loggable fetchError) eqn:Hmsg.
    + rewrite config_from_default_logged in Hdefault by assumption.
      destruct (truthy rv); [| discriminate].
      destruct (aid_key rv) as [key | e'] eqn:Hkey; [discriminate |].
      injection Hdefault as <- _. apply aid_key_throws in Hkey as (kind & msg & ->).
      reflexivity.
    + destruct (config_from_default_no_message fetchError rv s Hmsg)
        as (kind & msg & Hthrow).
      rewrite Hthrow in Hdefault. injection Hdefault as <- _. reflexivity.
  - destruct (loggable fetchError) eqn:Hmsg.
    + right. rewrite config_from_default_logged in Hdefault by assumption.
      destruct (truthy rv); [| discriminate].
      unfold aid_key, bind in Hdefault.
      destruct (truthy (prop_of rv "aidName")); [| discriminate].
      destruct (to_property_key (prop_of rv "aidName")) as [key | e'];
        [discriminate |].
      injection Hdefault as <- <-. auto.
    + left. destruct (not_loggable_throws fetchError Hmsg) as (kind & msg & Hm).
      unfold config_from_default, mbind, lift in Hdefault. rewrite Hm in Hdefault.
      injection Hdefault as <- <-. auto.
  - intros workflowError error' Hwf Hfb.
    unfold loadWorkflow, try_catch. rewrite Hwf.
    destruct (workflow_fallbacks_cases yaml_load w name workflowError)
      as [(v & Hv & _) | (kind & m & Hv)]; rewrite Hv in Hfb |- *.
    + discriminate.
    + reflexivity.
Qed.

Lemma loadConfig_fails_closed_witness :
  loadConfig (fun _ => None) rejecting_with_undefined "client"
    (VObj [ ("passcode", VStr "P") ]) initial_store
  = (Ret (Parsed VNull), initial_store)
  /\ loadConfig (fun _ => None) offline "client"
       (VObj [ ("passcode", VStr "P"); ("aidName", VObj [ ("toString", VNum 1) ]) ])
       initial_store
     = (Ret (Parsed VNull),
        template_after (VObj [ ("passcode", VStr "P") ]) initial_store)
  /\ secrets_obj (template_after (VObj [ ("passcode", VStr "P") ]) initial_store)
     = [ ("browser_extension", VStr "P") ]
  /\ loadWorkflow (fun _ => None) rejecting_with_undefined "create-client"
     = Ret (getFallbackWorkflow "create-client").
Proof.
  destruct (loadConfig_fails_closed (fun _ => None) (fun _ => None)
              rejecting_with_undefined "client" (VObj [ ("passcode", VStr "P") ])
              initial_store initial_store (Val VUndef)
              (TypeError "Cannot read properties of undefined"))
    as (Hnull & _ & _).
  - reflexivity.
  - reflexivity.
  - split; [exact Hnull |].
    destruct (loadConfig_fails_closed (fun _ => None) (fun _ => None)
                offline "client"
                (VObj [ ("passcode", VStr "P");
                        ("aidName", VObj [ ("toString", VNum 1) ]) ])
                initial_store
                (template_after (VObj [ ("passcode", VStr "P") ]) initial_store)
                (ErrorObj "Error" "Failed to fetch config file: 404")
                cannot_convert)
      as (Hkey & _ & _).
    + reflexivity.
    + reflexivity.
    + split; [exact Hkey |]. split; [reflexivity |].
      destruct (loadConfig_fails_closed (fun _ => None) (fun _ => None)
                  rejecting_with_undefined "create-client" VUndef
                  initial_store initial_store (Val VUndef)
                  (TypeError "Cannot read properties of undefined"))
        as (_ & _ & Hwf).
      * reflexivity.
      * reflexivity.
      * apply (Hwf (Val VUndef) (TypeError "Cannot read properties of undefined"));
          reflexivity.
Defined.



(** ** Passcodes *)

Lemma length_append (a b : string) :
  String.length (a ++ b) = String.length a + String.length b.
Proof. induction a as [| c a IH]; simpl; auto. Qed.

Lemma list_ascii_of_append (a b : string) :
  list_ascii_of_string (a ++ b)
  = (list_ascii_of_string a ++ list_ascii_of_string b)%list.
Proof. induction a as [| c a IH]; simpl; [| rewrite IH]; reflexivity. Qed.

Lemma get_In n s c : String.get n s = Some c -> In c (list_ascii_of_string s).
Proof.
  revert n. induction s as [| c' s IH]; intros n; simpl; [discriminate |].
  destruct n as [| n].
  - intros [= ->]. now left.
  - intros H. right. eauto.
Qed.

Lemma get_in_range n s : n < String.length s -> exists c, String.get n s = Some c.
Proof.
  revert n. induction s as [| c' s IH]; intros n; simpl; [lia |].
  destruct n as [| n]; [eauto |]. intros H. apply IH. lia.
Qed.

Lemma floor_random_times_range x len :
  (0 < len)%nat -> (0 <= x)%Q -> (x < 1)%Q ->
  (0 <= floor_random_times x len < Z.of_nat len)%Z.
Proof.
  intros Hlen H0 H1. unfold floor_random_times.
  assert (HL : (0 < inject_Z (Z.of_nat len))%Q).
  { change 0%Q with (inject_Z 0). rewrite <- Zlt_Qlt. lia. }
  split.
  - change 0%Z with (Qfloor 0). apply Qfloor_resp_le.
    apply Qmult_le_0_compat; [assumption | now apply Qlt_le_weak].
  - rewrite Zlt_Qlt. eapply Qle_lt_trans; [apply Qfloor_le |].
    rewrite <- (Qmult_1_l (inject_Z (Z.of_nat len))) at 2.
    now apply Qmult_lt_compat_r.
Qed.

(** Inside the string, [charAt] is one character of it. *)
Lemma charAt_in_range s i :
  (0 <= i < Z.of_nat (String.length s))%Z ->
  exists c, charAt s i = String c EmptyString /\ In c (list_ascii_of_string s).
Proof.
  intros Hi. unfold charAt.
  destruct (i <? 0)%Z eqn:Hneg; [lia |].
  destruct (get_in_range (Z.to_nat i) s) as (c & Hc); [lia |].
  rewrite Hc. eauto using get_In.
Qed.

Lemma passcode_loop_spec random remaining :
  (forall i, (0 <= random i)%Q /\ (random i < 1)%Q) ->
  forall i result,
    Forall (fun c => In c (list_ascii_of_string characters)) (list_ascii_of_string result) ->
    String.length (passcode_loop random i remaining result)
    = String.length result + remaining
    /\ Forall (fun c => In c (list_ascii_of_string characters))
              (list_ascii_of_string (passcode_loop random i remaining result)).
Proof.
  intros Hrandom.
  induction remaining as [| remaining IH]; intros i result Hresult;
    cbn [passcode_loop].
  - split; [lia | assumption].
  - destruct (charAt_in_range characters
                (floor_random_times (random i) (String.length characters)))
      as (c & Hc & Hin).
    { apply floor_random_times_range; [simpl; lia | apply Hrandom ..]. }
    rewrite Hc.
    destruct (IH (S i) (result ++ String c EmptyString)) as (Hlen & Hall).
    + rewrite list_ascii_of_append. apply Forall_app. split; [assumption |].
      simpl. auto.
    + split; [| exact Hall]. rewrite Hlen, length_append. simpl. lia.
Qed.

(** C9.  [generatePasscodeAndConfig] returns a passcode of exactly 20
    characters, each one of the 64 characters [A-Z], [a-z], [0-9], [-], [_],
    with a config whose default secret is that passcode.  [Math.random]
    draws from [[0, 1)]. *)
Theorem generatePasscodeAndConfig_passcode :
  forall (random : nat -> Q) (s : store),
    (forall i, (0 <= random i)%Q /\ (random i < 1)%Q) ->
    exists passcode config s',
      generatePasscodeAndConfig random s = (Ret (passcode, config), s')
      /\ String.length passcode = 20
      /\ Forall (fun c => In c (list_ascii_of_string characters))
                (list_ascii_of_string passcode)
      /\ forallb in_alphabet (list_ascii_of_string passcode) = true
      /\ String.length characters = 64
      /\ at_path (snapshot s' (Copied config)) [ "secrets"; "browser_extension" ]
         = VStr passcode.
Proof.
  intros random s Hrandom.
  destruct (passcode_loop_spec random 20 Hrandom 0 "") as (Hlen & Hall);
    [constructor |].
  exists (generateRandomPasscode random), DEFAULT_CLIENT_CONFIG,
    (store_put RSecrets
       (assign "browser_extension" (VStr (generateRandomPasscode random)) (secrets_obj s))
       s).
  split; [reflexivity |].
  split; [exact Hlen |].
  split; [exact Hall |].
  split.
  - apply forallb_forall. intros c Hc.
    rewrite Forall_forall in Hall. specialize (Hall c Hc).
    assert (Halphabet : forallb in_alphabet (list_ascii_of_string characters) = true)
      by reflexivity.
    rewrite forallb_forall in Halphabet. auto.
  - split; [reflexivity |].
    rewrite at_path_copied. simpl. rewrite at_path_cons, lookup_assign_same.
    reflexivity.
Qed.

Lemma generatePasscodeAndConfig_passcode_witness :
  exists config s',
    generatePasscodeAndConfig (fun i => if Nat.even i then 1 # 2 else 63 # 64)%Q initial_store
    = (Ret ("g_g_g_g_g_g_g_g_g_g_", config), s')
    /\ at_path (snapshot s' (Copied config)) [ "secrets"; "browser_extension" ]
       = VStr "g_g_g_g_g_g_g_g_g_g_".
Proof.
  destruct (generatePasscodeAndConfig_passcode
              (fun i => if Nat.even i then 1 # 2 else 63 # 64)%Q initial_store)
    as (passcode & config & s' & Hrun & _ & _ & _ & _ & Hsecret).
  - intros i. destruct (Nat.even i); split; reflexivity || discriminate.
  - exists config, s'.
    assert (Hpasscode : passcode = "g_g_g_g_g_g_g_g_g_g_").
    { vm_compute in Hrun. now injection Hrun as <- _ _. }
    rewrite Hpasscode in Hrun, Hsecret. split; assumption.
Defined.

(** ** The [bran] key *)

Lemma has_key_rev {A : Type} k (l : list (string * A)) :
  has_key k (rev l) = has_key k l.
Proof.
  unfold has_key. induction l as [| [k' a] l IH]; simpl; auto.
  rewrite lookup_app. simpl.
  destruct (lookup k (rev l)); destruct (k' =? k); auto.
Qed.

Lemma has_key_assign_other {A : Type} k k' (a : A) l :
  k <> k' -> has_key k (assign k' a l) = has_key k l.
Proof. intros H. unfold has_key. now rewrite lookup_assign_other. Qed.

Lemma string_of_nat_not_bran n : (string_of_nat n =? "bran") = false.
Proof.
  unfold string_of_nat, NilZero.string_of_uint.
  destruct (Nat.to_uint n); reflexivity.
Qed.

(** The index keys of a spread string are not [bran]. *)
Lemma index_keys_no_bran (indices : list nat) (elems : list value) :
  has_key "bran" (combine (map string_of_nat indices) elems) = false.
Proof.
  unfold has_key. revert elems.
  induction indices as [| i indices IH]; intros [| x elems]; simpl; auto.
  rewrite string_of_nat_not_bran. apply IH.
Qed.

Lemma own_enumerable_bran v :
  has_key "bran" (own_enumerable v) = has_at v [] "bran".
Proof.
  destruct v; try reflexivity. simpl. apply index_keys_no_bran.
Qed.

(** Without a truthy [bran] the rebuilt agent entry has a [bran] key only if
    the entry it is rebuilt from has one. *)
Lemma with_runtime_values_no_bran entry agentUrl bootUrl passcode bran :
  truthy bran = false ->
  has_at (with_runtime_values entry agentUrl bootUrl passcode bran) [] "bran"
  = has_at entry [] "bran".
Proof.
  intros Hbran.
  destruct (with_runtime_values_lookup entry agentUrl bootUrl passcode bran "bran")
    as (ps & -> & Hk).
  unfold bran_if_provided in Hk. rewrite Hbran in Hk. simpl in Hk.
  rewrite <- (own_enumerable_bran entry), <- (has_key_rev "bran" (own_enumerable entry)).
  unfold has_at, at_path, has_key. now rewrite Hk.
Qed.

Lemma same_bran_refl v : same_bran v v.
Proof. split; reflexivity. Qed.

Lemma same_bran_trans v1 v2 v3 : same_bran v1 v2 -> same_bran v2 v3 -> same_bran v1 v3.
Proof. intros [H1 H2] [H3 H4]. split; congruence. Qed.

Lemma mutated_same_bran base k x :
  k <> "bran" -> k <> "agents" -> same_bran (mutated base k x) base.
Proof.
  intros Hbran Hagents.
  destruct base as [| | b | n | str | ps | ps | tag]; try apply same_bran_refl;
    (split; unfold has_at, at_path, mutated;
     [ now rewrite has_key_assign_other by congruence
     | now rewrite lookup_assign_other by congruence ]).
Qed.

Lemma set_prop_same_bran base k x base' :
  set_prop base k x = Ret base' ->
  k <> "bran" -> k <> "agents" -> k <> "length" ->
  same_bran base' base.
Proof.
  intros Hset Hbran Hagents Hlength.
  apply String.eqb_neq in Hlength.
  destruct base as [| | b | n | str | ps | ps | tag]; simpl in Hset; try discriminate.
  - destruct ((k =? "__proto__") && negb (has_key k ps)); injection Hset as <-.
    + apply same_bran_refl.
    + now apply (mutated_same_bran (VObj ps)).
  - destruct ((k =? "__proto__") && negb (has_key k ps)).
    + injection Hset as <-. apply same_bran_refl.
    + rewrite Hlength in Hset. injection Hset as <-.
      now apply (mutated_same_bran (VArr ps)).
  - injection Hset as <-. apply same_bran_refl.
Qed.

(** A truthy property read from [base] is an own property of an object or
    an array. *)
Lemma get_prop_own base k v :
  get_prop base k = Ret v -> truthy v = true -> inherited k = VUndef ->
  exists ps, (base = VObj ps \/ base = VArr ps) /\ lookup k ps = Some v.
Proof.
  intros Hget Htruthy Hinherited.
  destruct base as [| | b | n | str | ps | ps | tag]; simpl in Hget;
    try discriminate;
    try (rewrite Hinherited in Hget; injection Hget as <-; discriminate);
    (destruct (lookup k ps) as [v' |] eqn:Hlookup;
     [ injection Hget as ->; eauto
     | rewrite Hinherited in Hget; injection Hget as <-; discriminate ]).
Qed.

Lemma replace_entry_same_bran config agents entry rebuilt agents' :
  get_prop config "agents" = Ret agents -> truthy agents = true ->
  get_prop agents "gleif-agent-1" = Ret entry -> truthy entry = true ->
  set_prop agents "gleif-agent-1" rebuilt = Ret agents' ->
  has_at rebuilt [] "bran" = has_at entry [] "bran" ->
  same_bran (mutated config "agents" agents') config.
Proof.
  intros Hagents Htruthy Hentry Htruthy' Hset Hrebuilt.
  destruct (get_prop_own _ _ _ Hagents Htruthy eq_refl) as (ps & Hconfig & Hps).
  destruct (get_prop_own _ _ _ Hentry Htruthy' eq_refl) as (qs & Hshape & Hqs).
  assert (Hpath : at_path agents' [ "gleif-agent-1" ] = rebuilt
                  /\ at_path agents [ "gleif-agent-1" ] = entry).
  { destruct Hshape as [-> | ->]; simpl in Hset; injection Hset as <-;
      unfold at_path; now rewrite lookup_assign_same, Hqs. }
  destruct Hpath as (Hnew & Hold).
  assert (Hgoal : forall tops,
             lookup "agents" tops = Some agents ->
             has_key "bran" (assign "agents" agents' tops) = has_key "bran" tops
             /\ match at_path agents' [ "gleif-agent-1" ] with
                | VObj es | VArr es => has_key "bran" es
                | _ => false
                end
                = match at_path agents [ "gleif-agent-1" ] with
                  | VObj es | VArr es => has_key "bran" es
                  | _ => false
                  end).
  { intros tops _. split.
    - now apply has_key_assign_other.
    - rewrite Hnew, Hold. exact Hrebuilt. }
  destruct (Hgoal ps Hps) as (Htop & Hdeep).
  destruct Hconfig as [-> | ->];
    (split; unfold has_at, mutated;
     [ exact Htop
     | change (at_path (?C (assign "agents" agents' ps)) [ "agents"; "gleif-agent-1" ])
         with (match lookup "agents" (assign "agents" agents' ps) with
               | Some v => at_path v [ "gleif-agent-1" ]
               | None => VUndef
               end);
       change (at_path (?C ps) [ "agents"; "gleif-agent-1" ])
         with (match lookup "agents" ps with
               | Some v => at_path v [ "gleif-agent-1" ]
               | None => VUndef
               end);
       rewrite lookup_assign_same, Hps; exact Hdeep ]).
Qed.

(** The rest of the block, from [config.agentUrl = ...] on, when the
    overlay's [bran] is falsy. *)
Lemma update_tail_same_bran config agentUrl bootUrl aidName v :
  (config0 <- set_prop config "agentUrl" agentUrl ;;
   config1 <- set_prop config0 "bootUrl" bootUrl ;;
   config2 <- Ret config1 ;;
   identifiers <- (if truthy aidName then get_prop config2 "identifiers"
                   else Ret aidName) ;;
   if truthy identifiers then
     key <- to_property_key aidName ;;
     identifiers' <- set_prop identifiers key
                       (VObj (literal [ ("agent", VStr "gleif-agent-1");
                                        ("name", aidName) ])) ;;
     Ret (mutated config2 "identifiers" identifiers')
   else Ret config2) = Ret v ->
  same_bran v config.
Proof.
  intros H.
  destruct (set_prop config "agentUrl" agentUrl) as [config0 |] eqn:H0;
    cbn [bind] in H; [| discriminate].
  destruct (set_prop config0 "bootUrl" bootUrl) as [config1 |] eqn:H1;
    cbn [bind] in H; [| discriminate].
  apply set_prop_same_bran in H0; [| discriminate ..].
  apply set_prop_same_bran in H1; [| discriminate ..].
  assert (Hconfig1 : same_bran config1 config) by eauto using same_bran_trans.
  destruct (if truthy aidName then get_prop config1 "identifiers" else Ret aidName)
    as [identifiers |]; cbn [bind] in H; [| discriminate].
  destruct (truthy identifiers).
  - destruct (to_property_key aidName) as [key |]; cbn [bind] in H; [| discriminate].
    destruct (set_prop identifiers _ _) as [identifiers' |];
      cbn [bind] in H; [| discriminate].
    injection H as <-.
    apply same_bran_trans with config1; [| assumption].
    apply mutated_same_bran; discriminate.
  - now injection H as <-.
Qed.

(** With a falsy [bran] in the overlay, the update of a parsed config adds
    no [bran] key. *)
Lemma update_same_bran config runtimeValues v :
  truthy runtimeValues = true ->
  truthy (prop_of runtimeValues "bran") = false ->
  update_with_runtime_values config runtimeValues = Ret v ->
  same_bran v config.
Proof.
  intros Hrv Hbran Hupd. unfold update_with_runtime_values in Hupd.
  rewrite !(get_prop_truthy runtimeValues) in Hupd by assumption.
  destruct (get_prop config "agents") as [agents | e] eqn:Hagents;
    cbn [bind] in Hupd; [| discriminate].
  rewrite Hbran in Hupd.
  destruct (truthy agents) eqn:Htruthy.
  - destruct (get_prop agents "gleif-agent-1") as [entry |] eqn:Hentry;
      cbn [bind] in Hupd; [| discriminate].
    destruct (truthy entry) eqn:Htruthy'.
    + destruct (set_prop agents "gleif-agent-1" _) as [agents' |] eqn:Hset;
        cbn [bind] in Hupd; [| discriminate].
      apply update_tail_same_bran in Hupd.
      apply same_bran_trans with (mutated config "agents" agents'); [assumption |].
      eapply replace_entry_same_bran; eauto.
      now apply with_runtime_values_no_bran.
    + cbn [bind] in Hupd. now apply update_tail_same_bran in Hupd.
  - cbn [bind] in Hupd. rewrite Htruthy in Hupd. cbn [bind] in Hupd.
    now apply update_tail_same_bran in Hupd.
Qed.

Lemma prop_of_at_path ps k :
  inherited k = VUndef -> prop_of (VObj ps) k = at_path (VObj ps) [ k ].
Proof.
  intros Hk. unfold prop_of, get_prop. rewrite at_path_cons.
  destruct (lookup k ps); [reflexivity | exact Hk].
Qed.

(** The overlay is read through five keys. *)
Lemma prop_of_remove_other overlay k :
  k <> "bran" ->
  prop_of (VObj (remove "bran" overlay)) k = prop_of (VObj overlay) k.
Proof.
  intros Hk. unfold prop_of, get_prop. now rewrite lookup_remove_other.
Qed.

Lemma prop_of_remove_bran overlay :
  prop_of (VObj (remove "bran" overlay)) "bran" = VUndef.
Proof. unfold prop_of, get_prop. now rewrite lookup_remove_same. Qed.

Lemma with_runtime_values_falsy_bran entry agentUrl bootUrl passcode bran bran' :
  truthy bran = false -> truthy bran' = false ->
  with_runtime_values entry agentUrl bootUrl passcode bran
  = with_runtime_values entry agentUrl bootUrl passcode bran'.
Proof.
  intros H H'. unfold with_runtime_values, bran_if_provided. now rewrite H, H'.
Qed.

Lemma update_empty_bran overlay config :
  lookup "bran" overlay = Some (VStr "") ->
  update_with_runtime_values config (VObj overlay)
  = update_with_runtime_values config (VObj (remove "bran" overlay)).
Proof.
  intros Hbran.
  assert (Hempty : prop_of (VObj overlay) "bran" = VStr "")
    by (unfold prop_of, get_prop; now rewrite Hbran).
  unfold update_with_runtime_values.
  rewrite !(get_prop_truthy (VObj overlay)) by reflexivity.
  rewrite !(get_prop_truthy (VObj (remove "bran" overlay))) by reflexivity.
  rewrite !prop_of_remove_bran, !Hempty.
  rewrite !prop_of_remove_other by discriminate.
  reflexivity.
Qed.

Lemma template_after_empty_bran overlay s :
  lookup "bran" overlay = Some (VStr "") ->
  template_after (VObj overlay) s = template_after (VObj (remove "bran" overlay)) s.
Proof.
  intros Hbran.
  assert (Hempty : prop_of (VObj overlay) "bran" = VStr "")
    by (unfold prop_of, get_prop; now rewrite Hbran).
  unfold template_after.
  rewrite !prop_of_remove_bran, !Hempty.
  rewrite !prop_of_remove_other by discriminate.
  reflexivity.
Qed.

Lemma copy_after_empty_bran overlay s :
  lookup "bran" overlay = Some (VStr "") ->
  copy_after (VObj overlay) s = copy_after (VObj (remove "bran" overlay)) s.
Proof.
  intros Hbran.
  assert (Hempty : prop_of (VObj overlay) "bran" = VStr "")
    by (unfold prop_of, get_prop; now rewrite Hbran).
  unfold copy_after, aid_key. rewrite <- template_after_empty_bran by assumption.
  rewrite !prop_of_remove_bran, !Hempty.
  rewrite !prop_of_remove_other by discriminate.
  reflexivity.
Qed.

Section EmptyBran.
Variable JSON_parse : string -> option value.

Lemma config_from_file_empty_bran w name overlay :
  lookup "bran" overlay = Some (VStr "") ->
  config_from_file JSON_parse w name (VObj overlay)
  = config_from_file JSON_parse w name (VObj (remove "bran" overlay)).
Proof.
  intros Hbran. unfold config_from_file, bind.
  destruct (fetch w _) as [resp |]; [| reflexivity].
  destruct (negb (ok resp)); [reflexivity |].
  destruct (text resp) as [configText |]; [| reflexivity].
  destruct (JSON_parse_js JSON_parse configText) as [config |]; [| reflexivity].
  simpl truthy. cbv iota. now apply update_empty_bran.
Qed.

Lemma config_from_default_empty_bran fetchError overlay s :
  lookup "bran" overlay = Some (VStr "") ->
  config_from_default fetchError (VObj overlay) s
  = config_from_default fetchError (VObj (remove "bran" overlay)) s.
Proof.
  intros Hbran. destruct (loggable fetchError) eqn:Hmsg.
  - rewrite !config_from_default_logged by assumption. simpl truthy. cbv iota.
    rewrite copy_after_empty_bran, template_after_empty_bran by assumption.
    unfold aid_key. now rewrite prop_of_remove_other by discriminate.
  - destruct (not_loggable_throws fetchError Hmsg) as (kind & msg & Hm).
    unfold config_from_default, mbind, lift. now rewrite Hm.
Qed.

(** The default branch with a falsy [bran]: no [bran] at the top level,
    and on the agent entry only what the template's entry had. *)
Lemma config_from_default_no_bran fetchError runtimeValues s config s' :
  truthy runtimeValues = true ->
  truthy (prop_of runtimeValues "bran") = false ->
  config_from_default fetchError runtimeValues s = (Ret config, s') ->
  has_at (snapshot s' config) [] "bran" = false
  /\ has_at (snapshot s' config) [ "agents"; "browser_extension" ] "bran"
     = has_at (snapshot s (Copied DEFAULT_CLIENT_CONFIG))
         [ "agents"; "browser_extension" ] "bran".
Proof.
  intros Hrv Hbran Hdefault.
  destruct (loggable fetchError) eqn:Hmsg.
  2:{ destruct (config_from_default_no_message fetchError runtimeValues s Hmsg)
        as (kind & msg & Hthrow).
      rewrite Hthrow in Hdefault. discriminate. }
  rewrite config_from_default_logged, Hrv in Hdefault by assumption.
  destruct (aid_key runtimeValues) as [key | e] eqn:Hkey; [| discriminate].
  injection Hdefault as <- <-.
  assert (Htop : lookup "bran" (copy_after runtimeValues s) = None
                 /\ lookup "agents" (copy_after runtimeValues s) = Some (Shared RAgents)).
  { unfold copy_after. rewrite Hbran, Hkey.
    destruct key as [key |];
      rewrite ?lookup_assign_other by discriminate; split; reflexivity. }
  destruct Htop as (Hnone & Hagents).
  split.
  - unfold has_at, at_path, snapshot, has_key.
    now rewrite lookup_map_values, Hnone.
  - unfold has_at. rewrite !at_path_copied, Hagents.
    change (lookup "agents" DEFAULT_CLIENT_CONFIG) with (Some (Shared RAgents)).
    unfold read_slot, deref.
    destruct s as [secrets agents identifiers users credentials].
    unfold template_after. cbv zeta.
    assert (Hsame : forall b : bool,
               agents_obj (if b
                           then store_put RSecrets
                                  (assign "browser_extension"
                                     (prop_of runtimeValues "passcode") secrets)
                                  (mkStore secrets agents identifiers users credentials)
                           else mkStore secrets agents identifiers users credentials)
               = agents)
      by (intros []; reflexivity).
    rewrite !Hsame. cbn [agents_obj].
    rewrite (prop_of_at_path agents "browser_extension" eq_refl).
    set (entry := at_path (VObj agents) [ "browser_extension" ]).
    destruct (truthy entry) eqn:Htruthy.
    + assert (Hentry : lookup "browser_extension" agents = Some entry).
      { subst entry. rewrite at_path_cons in Htruthy |- *.
        destruct (lookup "browser_extension" agents); [reflexivity | discriminate]. }
      destruct (truthy (prop_of runtimeValues "passcode"));
        cbn [store_put agents_obj];
        rewrite at_path_cons, lookup_assign_same;
        exact (with_runtime_values_no_bran entry _ _ _ _ Hbran).
    + rewrite Hsame. reflexivity.
Qed.

End EmptyBran.

(** C10.  An overlay whose [bran] is the empty string is treated as one
    without [bran]: [loadConfig] gives the same result and leaves the same
    template, whatever the host answers.  No [bran] key is set: in the
    file branch the updated config has a [bran] key, at the top level and on
    the ['gleif-agent-1'] entry, exactly where the parsed file had one; in the
    default branch the top level has none and the [browser_extension] entry
    has one exactly if the template's entry had. *)
Theorem loadConfig_empty_bran_is_absent :
  forall (JSON_parse : string -> option value) (w : world) (name : string)
         (overlay : list (string * value)) (s : store),
    lookup "bran" overlay = Some (VStr "") ->
    loadConfig JSON_parse w name (VObj overlay) s
    = loadConfig JSON_parse w name (VObj (remove "bran" overlay)) s
    /\ (forall parsed v,
           update_with_runtime_values parsed (VObj overlay) = Ret v ->
           has_at v [] "bran" = has_at parsed [] "bran"
           /\ has_at v [ "agents"; "gleif-agent-1" ] "bran"
              = has_at parsed [ "agents"; "gleif-agent-1" ] "bran")
    /\ (forall fetchError config s',
           config_from_default fetchError (VObj overlay) s = (Ret config, s') ->
           has_at (snapshot s' config) [] "bran" = false
           /\ has_at (snapshot s' config) [ "agents"; "browser_extension" ] "bran"
              = has_at (snapshot s (Copied DEFAULT_CLIENT_CONFIG))
                  [ "agents"; "browser_extension" ] "bran").
Proof.
  intros JSON_parse w name overlay s Hbran.
  assert (Hempty : truthy (prop_of (VObj overlay) "bran") = false)
    by (unfold prop_of, get_prop; now rewrite Hbran).
  split; [| split].
  - unfold loadConfig, mtry, mbind, lift, mret.
    rewrite <- config_from_file_empty_bran by assumption.
    destruct (config_from_file JSON_parse w name (VObj overlay)); [reflexivity |].
    now rewrite <- config_from_default_empty_bran.
  - intros parsed v Hupdate.
    now apply (update_same_bran parsed (VObj overlay) v).
  - intros fetchError config s' Hdefault.
    now apply (config_from_default_no_bran fetchError (VObj overlay) s config s').
Qed.

Lemma loadConfig_empty_bran_is_absent_witness :
  lookup "bran" [ ("agentUrl", VStr "U"); ("bran", VStr "") ] = Some (VStr "")
  /\ loadConfig (fun _ => Some parsed_config) serving_config "client"
       (VObj [ ("agentUrl", VStr "U"); ("bran", VStr "") ]) initial_store
     = loadConfig (fun _ => Some parsed_config) serving_config "client"
         (VObj [ ("agentUrl", VStr "U") ]) initial_store
  /\ loadConfig (fun _ => None) offline "client"
       (VObj [ ("agentUrl", VStr "U"); ("bran", VStr "") ]) initial_store
     = loadConfig (fun _ => None) offline "client"
         (VObj [ ("agentUrl", VStr "U") ]) initial_store.
Proof.
  split; [reflexivity |]. split.
  - apply (loadConfig_empty_bran_is_absent (fun _ => Some parsed_config) serving_config
             "client" [ ("agentUrl", VStr "U"); ("bran", VStr "") ] initial_store).
    reflexivity.
  - apply (loadConfig_empty_bran_is_absent (fun _ => None) offline
             "client" [ ("agentUrl", VStr "U"); ("bran", VStr "") ] initial_store).
    reflexivity.
Defined.

(** * More of the loader *)

(** ** What [loadConfig] does to the template *)

(** X1.  [loadConfig] never rejects.  It resolves to the updated content of
    the bundled file with the template untouched; or, the inner [try] having
    thrown, to [null] with the template untouched when the [catch] cannot
    log what it caught, to a plain copy of the template when the overlay is
    falsy, to the copy with the overlay when the key of the identifier entry
    can be computed, and to [null] with the overlay already written into the
    template when it cannot. *)
Theorem loadConfig_never_rejects :
  forall (JSON_parse : string -> option value) (w : world) (name : string)
         (runtimeValues : value) (s : store),
  exists c s',
    loadConfig JSON_parse w name runtimeValues s = (Ret c, s')
    /\ ((exists v, config_from_file JSON_parse w name runtimeValues = Ret v
                   /\ c = Parsed v /\ s' = s)
        \/ (exists e, config_from_file JSON_parse w name runtimeValues = Throw e
                      /\ loggable e = false /\ c = Parsed VNull /\ s' = s)
        \/ (exists e, config_from_file JSON_parse w name runtimeValues = Throw e
                      /\ loggable e = true /\ truthy runtimeValues = false
                      /\ c = Copied DEFAULT_CLIENT_CONFIG /\ s' = s)
        \/ (exists e key,
               config_from_file JSON_parse w name runtimeValues = Throw e
               /\ loggable e = true /\ truthy runtimeValues = true
               /\ aid_key runtimeValues = Ret key
               /\ c = Copied (copy_after runtimeValues s)
               /\ s' = template_after runtimeValues s)
        \/ (exists e e',
               config_from_file JSON_parse w name runtimeValues = Throw e
               /\ loggable e = true /\ truthy runtimeValues = true
               /\ aid_key runtimeValues = Throw e'
               /\ c = Parsed VNull
               /\ s' = template_after runtimeValues s)).
Proof.
  intros JSON_parse w name rv s.
  destruct (config_from_file JSON_parse w name rv) as [v | e] eqn:Hfile.
  - rewrite (loadConfig_from_file _ _ _ _ _ _ Hfile). eauto 8.
  - destruct (loggable e) eqn:Hmsg.
    + rewrite (loadConfig_from_default _ _ _ _ _ _ Hfile Hmsg). unfold default_config.
      destruct (truthy rv) eqn:Hrv.
      * destruct (aid_key rv) as [key | e'] eqn:Hkey.
        -- do 2 eexists. split; [reflexivity |].
           right. right. right. left. exists e, key. auto 8.
        -- do 2 eexists. split; [reflexivity |].
           right. right. right. right. exists e, e'. auto 8.
      * do 2 eexists. split; [reflexivity |].
        right. right. left. exists e. auto 8.
    + rewrite (loadConfig_null _ _ _ _ _ _ Hfile Hmsg).
      do 2 eexists. split; [reflexivity |].
      right. left. exists e. auto.
Qed.

Lemma template_after_frame runtimeValues s :
  identifiers_obj (template_after runtimeValues s) = identifiers_obj s
  /\ users_arr (template_after runtimeValues s) = users_arr s
  /\ credentials_obj (template_after runtimeValues s) = credentials_obj s.
Proof.
  destruct s as [secrets agents identifiers users credentials].
  unfold template_after.
  destruct (truthy (prop_of runtimeValues "passcode")); cbn [store_put agents_obj];
    destruct (truthy (prop_of (VObj agents) "browser_extension"));
    repeat split; reflexivity.
Qed.

(** X2.  Whatever the host answers and whatever the overlay holds, a call of
    [loadConfig] leaves the template's identifiers, users and credentials as
    they were (an [aidName] goes to the returned config only), and a call of
    [generatePasscodeAndConfig] leaves all but [secrets] as it was. *)
Theorem template_frame :
  forall (JSON_parse : string -> option value) (w : world) (name : string)
         (runtimeValues : value) (random : nat -> Q) (s : store),
    (identifiers_obj (snd (loadConfig JSON_parse w name runtimeValues s)) = identifiers_obj s
     /\ users_arr (snd (loadConfig JSON_parse w name runtimeValues s)) = users_arr s
     /\ credentials_obj (snd (loadConfig JSON_parse w name runtimeValues s))
        = credentials_obj s)
    /\ (agents_obj (snd (generatePasscodeAndConfig random s)) = agents_obj s
        /\ identifiers_obj (snd (generatePasscodeAndConfig random s)) = identifiers_obj s
        /\ users_arr (snd (generatePasscodeAndConfig random s)) = users_arr s
        /\ credentials_obj (snd (generatePasscodeAndConfig random s)) = credentials_obj s).
Proof.
  intros JSON_parse w name rv random s. split.
  - destruct (loadConfig_returns JSON_parse w name rv s) as (c & s' & -> & [-> | ->]);
      cbn [snd].
    + repeat split.
    + apply template_after_frame.
  - destruct s as [secrets agents identifiers users credentials].
    repeat split.
Qed.


(** ** Keys of property lists *)

Section KeyFacts.
Context {A : Type}.
Implicit Types (k : string) (l : list (string * A)).

Lemma lookup_none_keys k l : lookup k l = None <-> ~ In k (map fst l).
Proof.
  induction l as [| [k' a] l IH]; simpl.
  - tauto.
  - destruct (k' =? k) eqn:E.
    + apply String.eqb_eq in E. split; [discriminate | tauto].
    + apply String.eqb_neq in E. rewrite IH. tauto.
Qed.

Lemma in_assign_keys x k a l :
  In x (map fst (assign k a l)) -> x = k \/ In x (map fst l).
Proof.
  induction l as [| [k' a'] l IH]; simpl.
  - intros [<- | []]. now left.
  - destruct (k' =? k); simpl; [tauto |].
    intros [<- | H]; [tauto |]. apply IH in H. tauto.
Qed.

Lemma assign_nodup k a l :
  NoDup (map fst l) -> NoDup (map fst (assign k a l)).
Proof.
  induction l as [| [k' a'] l IH]; simpl; intros Hnodup.
  - repeat constructor. simpl. tauto.
  - destruct (k' =? k) eqn:E; simpl; [assumption |].
    inversion Hnodup as [| ? ? Hnotin Hrest]; subst.
    constructor; [| now apply IH].
    intros Hin. apply in_assign_keys in Hin as [-> | Hin]; [| tauto].
    now rewrite String.eqb_refl in E.
Qed.

(** An object literal has distinct keys. *)
Lemma literal_nodup (entries : list (string * A)) : NoDup (map fst (literal entries)).
Proof.
  unfold literal.
  assert (H : forall acc : list (string * A),
             NoDup (map fst acc) ->
             NoDup (map fst (fold_left (fun acc kv => assign (fst kv) (snd kv) acc)
                                       entries acc))).
  { induction entries as [| [k a] entries IH]; intros acc Hacc; simpl; [assumption |].
    apply IH. now apply assign_nodup. }
  apply H. constructor.
Qed.

Lemma lookup_rev_nodup k l :
  NoDup (map fst l) -> lookup k (rev l) = lookup k l.
Proof.
  induction l as [| [k' a] l IH]; simpl; intros Hnodup; [reflexivity |].
  inversion Hnodup as [| ? ? Hnotin Hrest]; subst.
  rewrite lookup_app, IH by assumption. simpl.
  destruct (k' =? k) eqn:E.
  - apply String.eqb_eq in E. subst k'.
    apply lookup_none_keys in Hnotin. now rewrite Hnotin.
  - now destruct (lookup k l).
Qed.

Lemma assign_same_value k a l : lookup k l = Some a -> assign k a l = l.
Proof.
  induction l as [| [k' a'] l IH]; simpl; [discriminate |].
  destruct (k' =? k) eqn:E.
  - intros [= ->]. reflexivity.
  - intros H. now rewrite IH.
Qed.

Lemma assign_assign k a b l : assign k a (assign k b l) = assign k a l.
Proof.
  induction l as [| [k' a'] l IH]; simpl.
  - now rewrite String.eqb_refl.
  - destruct (k' =? k) eqn:E; simpl; rewrite E; [reflexivity | now rewrite IH].
Qed.

Lemma assign_fresh k a l : lookup k l = None -> assign k a l = (l ++ [ (k, a) ])%list.
Proof.
  induction l as [| [k' a'] l IH]; simpl; [reflexivity |].
  destruct (k' =? k); [discriminate |]. intros H. now rewrite IH.
Qed.

(** Defining the properties of an object with distinct keys on an object
    that has none of them appends them. *)
Lemma fold_assign_fresh (entries acc : list (string * A)) :
  NoDup (map fst entries) ->
  (forall k, In k (map fst entries) -> lookup k acc = None) ->
  fold_left (fun acc kv => assign (fst kv) (snd kv) acc) entries acc
  = (acc ++ entries)%list.
Proof.
  revert acc. induction entries as [| [k a] entries IH]; intros acc Hnodup Hfresh; simpl.
  - now rewrite app_nil_r.
  - inversion Hnodup as [| ? ? Hnotin Hrest]; subst.
    rewrite assign_fresh by (apply Hfresh; simpl; tauto).
    rewrite IH; [now rewrite <- app_assoc | assumption |].
    intros k' Hin. rewrite lookup_app, Hfresh by (simpl; tauto). simpl.
    destruct (k =? k') eqn:E; [| reflexivity].
    apply String.eqb_eq in E. subst k'. tauto.
Qed.

Lemma literal_of_distinct (entries : list (string * A)) :
  NoDup (map fst entries) -> literal entries = entries.
Proof.
  intros Hnodup. unfold literal. now rewrite fold_assign_fresh.
Qed.

(** Defining again what an object already holds changes nothing. *)
Lemma fold_assign_same (entries acc : list (string * A)) :
  Forall (fun kv => lookup (fst kv) acc = Some (snd kv)) entries ->
  fold_left (fun acc kv => assign (fst kv) (snd kv) acc) entries acc = acc.
Proof.
  induction 1 as [| [k a] entries Hk _ IH]; simpl; [reflexivity |].
  simpl in Hk. now rewrite assign_same_value.
Qed.
End KeyFacts.

(** ** The template in closed form *)

Lemma template_after_secrets runtimeValues s :
  secrets_obj (template_after runtimeValues s)
  = if truthy (prop_of runtimeValues "passcode")
    then assign "browser_extension" (prop_of runtimeValues "passcode") (secrets_obj s)
    else secrets_obj s.
Proof.
  destruct s as [secrets agents identifiers users credentials].
  unfold template_after.
  destruct (truthy (prop_of runtimeValues "passcode")); cbn [store_put agents_obj];
    destruct (truthy (prop_of (VObj agents) "browser_extension")); reflexivity.
Qed.

Lemma template_after_agents runtimeValues s :
  agents_obj (template_after runtimeValues s)
  = if truthy (prop_of (VObj (agents_obj s)) "browser_extension")
    then assign "browser_extension"
           (with_runtime_values (prop_of (VObj (agents_obj s)) "browser_extension")
              (prop_of runtimeValues "agentUrl") (prop_of runtimeValues "bootUrl")
              (prop_of runtimeValues "passcode") (prop_of runtimeValues "bran"))
           (agents_obj s)
    else agents_obj s.
Proof.
  destruct s as [secrets agents identifiers users credentials].
  unfold template_after.
  destruct (truthy (prop_of runtimeValues "passcode")); cbn [store_put agents_obj];
    destruct (truthy (prop_of (VObj agents) "browser_extension")); reflexivity.
Qed.

Lemma with_runtime_values_keeps entry agentUrl bootUrl passcode bran k :
  NoDup (map fst entry) ->
  k <> "url" -> k <> "boot_url" -> k <> "passcode" -> k <> "bran" ->
  exists ps,
    with_runtime_values (VObj entry) agentUrl bootUrl passcode bran = VObj ps
    /\ NoDup (map fst ps)
    /\ lookup k ps = lookup k entry.
Proof.
  intros Hnodup Hurl Hboot Hpass Hbran.
  destruct (with_runtime_values_lookup (VObj entry) agentUrl bootUrl passcode bran k)
    as (ps & Heq & Hk).
  exists ps. split; [exact Heq |]. split.
  - unfold with_runtime_values in Heq. injection Heq as <-. apply literal_nodup.
  - rewrite Hk. clear Hk Heq.
    apply String.eqb_neq in Hurl, Hboot, Hpass, Hbran.
    rewrite String.eqb_sym in Hurl, Hboot, Hpass, Hbran.
    unfold bran_if_provided. destruct (truthy bran); simpl;
      rewrite ?Hurl, ?Hboot, ?Hpass, ?Hbran; now apply lookup_rev_nodup.
Qed.

Lemma template_after_shape runtimeValues s :
  template_shape s -> template_shape (template_after runtimeValues s).
Proof.
  intros (Hids & Husers & Hcreds & (secret & Hsecrets) & (entry & Hagents & Hnodup & Hsecret)).
  destruct (template_after_frame runtimeValues s) as (Fids & Fusers & Fcreds).
  unfold template_shape. rewrite Fids, Fusers, Fcreds.
  repeat split; try assumption.
  - rewrite template_after_secrets, Hsecrets.
    destruct (truthy (prop_of runtimeValues "passcode")); simpl; eauto.
  - rewrite template_after_agents, Hagents.
    change (prop_of (VObj [ ("browser_extension", VObj entry) ]) "browser_extension")
      with (VObj entry).
    simpl truthy. cbv iota.
    destruct (with_runtime_values_keeps entry (prop_of runtimeValues "agentUrl")
                (prop_of runtimeValues "bootUrl") (prop_of runtimeValues "passcode")
                (prop_of runtimeValues "bran") "secret" Hnodup)
      as (ps & -> & Hnodup' & Hkeep); try discriminate.
    exists ps. simpl. rewrite Hkeep. auto.
Qed.

(** X3.  In every state of the template that calls of [loadConfig] and
    [generatePasscodeAndConfig] can produce, the template has the identifiers,
    users and credentials it was loaded with, [secrets] and [agents] have
    [browser_extension] as their only key, and the agent entry is an object
    with distinct keys whose [secret] is still ["browser_extension"]: the
    agent's secret always names a key of [secrets]. *)
Theorem reachable_template_shape :
  forall (JSON_parse : string -> option value) (s : store),
    reachable JSON_parse s -> template_shape s.
Proof.
  intros JSON_parse s Hreach.
  induction Hreach as [| w name rv s Hs IH | random s Hs IH].
  - unfold template_shape. simpl. repeat split; eauto.
    exists [ ("secret", VStr "browser_extension") ]. repeat split.
    repeat constructor. simpl. tauto.
  - destruct (loadConfig_returns JSON_parse w name rv s) as (c & s' & -> & [-> | ->]);
      cbn [snd]; [exact IH | now apply template_after_shape].
  - destruct IH as (Hids & Husers & Hcreds & (secret & Hsecrets) & Hagents).
    destruct s as [secrets agents identifiers users credentials].
    simpl in *. subst secrets.
    unfold template_shape. simpl. repeat split; eauto.
Qed.

Lemma reachable_template_shape_witness :
  template_shape
    (snd (loadConfig (fun _ => None) offline "client"
            (VObj [ ("passcode", VStr "P"); ("bran", VStr "BR") ]) initial_store)).
Proof.
  apply (reachable_template_shape (fun _ => None)).
  apply reach_loadConfig. apply reach_initial.
Defined.

(** ** The default branch for any overlay *)

Lemma copy_after_lookup runtimeValues s k :
  k <> "identifiers" ->
  lookup k (copy_after runtimeValues s)
  = lookup k (DEFAULT_CLIENT_CONFIG
              ++ [ ("agentUrl", Own (prop_of runtimeValues "agentUrl"));
                   ("bootUrl", Own (prop_of runtimeValues "bootUrl")) ]
              ++ (if truthy (prop_of runtimeValues "bran")
                  then [ ("bran", Own (prop_of runtimeValues "bran")) ]
                  else []))%list.
Proof.
  intros Hk. unfold copy_after.
  destruct (aid_key runtimeValues) as [[key |] | e]; try reflexivity.
  now apply lookup_assign_other.
Qed.

Lemma has_at_copied_top s o k :
  has_at (snapshot s (Copied o)) [] k = has_key k o.
Proof.
  unfold has_at, at_path, snapshot, has_key. rewrite lookup_map_values.
  now destruct (lookup k o).
Qed.

Lemma with_runtime_values_present entry agentUrl bootUrl passcode bran :
  exists ps,
    with_runtime_values entry agentUrl bootUrl passcode bran = VObj ps
    /\ lookup "url" ps = Some agentUrl
    /\ lookup "boot_url" ps = Some bootUrl
    /\ lookup "passcode" ps = Some passcode.
Proof.
  destruct (with_runtime_values_lookup entry agentUrl bootUrl passcode bran "url")
    as (ps & Heq & Hurl).
  destruct (with_runtime_values_lookup entry agentUrl bootUrl passcode bran "boot_url")
    as (ps1 & Heq1 & Hboot).
  destruct (with_runtime_values_lookup entry agentUrl bootUrl passcode bran "passcode")
    as (ps2 & Heq2 & Hpass).
  rewrite Heq in Heq1, Heq2. injection Heq1 as <-. injection Heq2 as <-.
  exists ps. split; [exact Heq |].
  unfold bran_if_provided in *.
  destruct (truthy bran); simpl in *; auto.
Qed.

(** X4.  With the bundled file unavailable and its failure logged, for
    every truthy overlay whose [aidName] is falsy or converts to a property
    key (whatever the other fields are) and every state the template can be
    in: the agent entry of the result has the keys [url], [boot_url] and
    [passcode] with the overlay's [agentUrl], [bootUrl] and [passcode],
    [undefined] included, and keeps its [secret]; the top level has
    [agentUrl] and [bootUrl], a [bran] key exactly for a truthy [bran], and
    never a [passcode]; the default secret is the overlay's passcode if that
    is truthy and what the template held otherwise. *)
Theorem loadConfig_default_any_overlay :
  forall (JSON_parse : string -> option value) (w : world) (name : string)
         (runtimeValues : value) (s : store) (key : option string),
    reachable JSON_parse s ->
    file_unavailable (fetch w ("src/user_config/" ++ name ++ ".json")) = true ->
    failure_loggable (fetch w ("src/user_config/" ++ name ++ ".json")) = true ->
    truthy runtimeValues = true ->
    aid_key runtimeValues = Ret key ->
    exists config s',
      loadConfig JSON_parse w name runtimeValues s = (Ret config, s')
      /\ at_path (snapshot s' config) [ "agents"; "browser_extension"; "url" ]
         = prop_of runtimeValues "agentUrl"
      /\ at_path (snapshot s' config) [ "agents"; "browser_extension"; "boot_url" ]
         = prop_of runtimeValues "bootUrl"
      /\ at_path (snapshot s' config) [ "agents"; "browser_extension"; "passcode" ]
         = prop_of runtimeValues "passcode"
      /\ has_at (snapshot s' config) [ "agents"; "browser_extension" ] "url" = true
      /\ has_at (snapshot s' config) [ "agents"; "browser_extension" ] "boot_url" = true
      /\ has_at (snapshot s' config) [ "agents"; "browser_extension" ] "passcode" = true
      /\ at_path (snapshot s' config) [ "agents"; "browser_extension"; "secret" ]
         = VStr "browser_extension"
      /\ at_path (snapshot s' config) [ "agentUrl" ] = prop_of runtimeValues "agentUrl"
      /\ at_path (snapshot s' config) [ "bootUrl" ] = prop_of runtimeValues "bootUrl"
      /\ has_at (snapshot s' config) [] "agentUrl" = true
      /\ has_at (snapshot s' config) [] "bootUrl" = true
      /\ has_at (snapshot s' config) [] "bran" = truthy (prop_of runtimeValues "bran")
      /\ has_at (snapshot s' config) [] "passcode" = false
      /\ at_path (snapshot s' config) [ "secrets"; "browser_extension" ]
         = if truthy (prop_of runtimeValues "passcode")
           then prop_of runtimeValues "passcode"
           else at_path (snapshot s (Copied DEFAULT_CLIENT_CONFIG))
                  [ "secrets"; "browser_extension" ].
Proof.
  intros JSON_parse w name rv s key Hreach Hfile Hlog Hrv Hkey.
  destruct (config_from_file_unavailable JSON_parse w name rv Hfile) as (e & He & Hmsg).
  rewrite Hlog in Hmsg.
  rewrite (loadConfig_from_default _ _ _ _ _ _ He Hmsg). unfold default_config.
  rewrite Hrv, Hkey.
  do 2 eexists. split; [reflexivity |].
  destruct (reachable_template_shape _ _ Hreach)
    as (_ & _ & _ & (secret & Hsecrets) & (entry & Hagents & Hnodup & Hsecret)).
  destruct (with_runtime_values_present (VObj entry) (prop_of rv "agentUrl")
              (prop_of rv "bootUrl") (prop_of rv "passcode") (prop_of rv "bran"))
    as (ps & Hps & Hurl & Hboot & Hpass).
  destruct (with_runtime_values_keeps entry (prop_of rv "agentUrl")
              (prop_of rv "bootUrl") (prop_of rv "passcode") (prop_of rv "bran")
              "secret" Hnodup) as (ps' & Hps' & _ & Hkeep); try discriminate.
  rewrite Hps in Hps'. injection Hps' as <-.
  assert (Hentry : at_path (VObj (agents_obj (template_after rv s))) [ "browser_extension" ]
                   = VObj ps).
  { rewrite template_after_agents, Hagents.
    change (prop_of (VObj [ ("browser_extension", VObj entry) ]) "browser_extension")
      with (VObj entry).
    simpl truthy. cbv iota. rewrite Hps. reflexivity. }
  assert (Hpath : forall k,
             at_path (snapshot (template_after rv s) (Copied (copy_after rv s)))
               [ "agents"; "browser_extension"; k ]
             = match lookup k ps with Some v => v | None => VUndef end).
  { intros k. rewrite at_path_copied, copy_after_lookup by discriminate.
    change (at_path (VObj (agents_obj (template_after rv s))) [ "browser_extension"; k ]
            = match lookup k ps with Some v => v | None => VUndef end).
    rewrite at_path_cons.
    change (at_path (VObj (agents_obj (template_after rv s))) [ "browser_extension" ])
      with (match lookup "browser_extension" (agents_obj (template_after rv s)) with
            | Some v => v
            | None => VUndef
            end) in Hentry.
    destruct (lookup "browser_extension" (agents_obj (template_after rv s)));
      [subst v | discriminate]. reflexivity. }
  assert (Hhas : forall k,
             has_at (snapshot (template_after rv s) (Copied (copy_after rv s)))
               [ "agents"; "browser_extension" ] k
             = has_key k ps).
  { intros k. unfold has_at. rewrite at_path_copied, copy_after_lookup by discriminate.
    change (match at_path (VObj (agents_obj (template_after rv s))) [ "browser_extension" ] with
            | VObj qs | VArr qs => has_key k qs
            | _ => false
            end = has_key k ps).
    now rewrite Hentry. }
  rewrite !Hpath, !Hhas, !has_at_copied_top. unfold has_key.
  rewrite Hurl, Hboot, Hpass, Hkeep, Hsecret.
  rewrite !at_path_copied, !copy_after_lookup by discriminate.
  repeat split; try reflexivity;
    try (destruct (truthy (prop_of rv "bran")); reflexivity).
  assert (Hslot : lookup "secrets"
                    (DEFAULT_CLIENT_CONFIG
                     ++ [ ("agentUrl", Own (prop_of rv "agentUrl"));
                          ("bootUrl", Own (prop_of rv "bootUrl")) ]
                     ++ (if truthy (prop_of rv "bran")
                         then [ ("bran", Own (prop_of rv "bran")) ]
                         else []))%list
                  = Some (Shared RSecrets)) by reflexivity.
  rewrite Hslot. change (lookup "secrets" DEFAULT_CLIENT_CONFIG) with (Some (Shared RSecrets)).
  unfold read_slot, deref.
  rewrite !at_path_cons, template_after_secrets.
  destruct (truthy (prop_of rv "passcode")); [| reflexivity].
  now rewrite lookup_assign_same.
Qed.

Lemma loadConfig_default_any_overlay_witness :
  exists config s',
    loadConfig (fun _ => None) offline "client" (VObj []) initial_store = (Ret config, s')
    /\ has_at (snapshot s' config) [ "agents"; "browser_extension" ] "url" = true
    /\ at_path (snapshot s' config) [ "agents"; "browser_extension"; "url" ] = VUndef
    /\ at_path (snapshot s' config) [ "secrets"; "browser_extension" ]
       = VStr "AUTOGENERATED_AT_RUNTIME".
Proof.
  destruct (loadConfig_default_any_overlay (fun _ => None) offline "client" (VObj [])
              initial_store None)
    as (config & s' & Hload & Hurl & _ & _ & Hhas & _ & _ & _ & _ & _ & _ & _ & _ & _ & Hsec).
  - apply reach_initial.
  - reflexivity.
  - reflexivity.
  - reflexivity.
  - reflexivity.
  - exists config, s'. repeat split; assumption.
Defined.

Lemma at_path_undefined path : at_path VUndef path = VUndef.
Proof. destruct path; reflexivity. Qed.

Lemma at_path_app v path rest :
  at_path v (path ++ rest) = at_path (at_path v path) rest.
Proof.
  revert v. induction path as [| k path IH]; intros v; [reflexivity |].
  destruct v as [| | b | n | str | ps | ps | tag];
    try (symmetry; apply at_path_undefined);
    (change (match lookup k ps with
             | Some v' => at_path v' (path ++ rest)
             | None => VUndef
             end
             = at_path (match lookup k ps with
                        | Some v' => at_path v' path
                        | None => VUndef
                        end) rest);
     destruct (lookup k ps); [apply IH | symmetry; apply at_path_undefined]).
Qed.

(** X5.  With the bundled file unavailable and its failure logged, and an
    [aidName] that is a string, not empty, in every state the template can
    be in: the identifiers of the result are the template's with the entry
    [{agent: "gleif-agent-1", name: aidName}] under the key [aidName]
    (replacing an entry of that key), every other identifier is the
    template's, and the template's own identifiers are not touched, so the
    name does not show in later calls. *)
Theorem loadConfig_default_aidName :
  forall (JSON_parse : string -> option value) (w : world) (name : string)
         (runtimeValues : value) (s : store) (aidName : string),
    reachable JSON_parse s ->
    file_unavailable (fetch w ("src/user_config/" ++ name ++ ".json")) = true ->
    failure_loggable (fetch w ("src/user_config/" ++ name ++ ".json")) = true ->
    truthy runtimeValues = true ->
    prop_of runtimeValues "aidName" = VStr aidName ->
    aidName <> "" ->
    exists config s',
      loadConfig JSON_parse w name runtimeValues s = (Ret config, s')
      /\ at_path (snapshot s' config) [ "identifiers"; aidName ]
         = VObj [ ("agent", VStr "gleif-agent-1"); ("name", VStr aidName) ]
      /\ (forall k,
             k <> aidName ->
             at_path (snapshot s' config) [ "identifiers"; k ]
             = at_path (snapshot initial_store (Copied DEFAULT_CLIENT_CONFIG))
                 [ "identifiers"; k ])
      /\ identifiers_obj s' = identifiers_obj initial_store.
Proof.
  intros JSON_parse w name rv s aidName Hreach Hfile Hlog Hrv Haid Hne.
  destruct (config_from_file_unavailable JSON_parse w name rv Hfile) as (e & He & Hmsg).
  rewrite Hlog in Hmsg.
  assert (Hkey : aid_key rv = Ret (Some aidName)).
  { unfold aid_key. rewrite Haid. simpl.
    apply String.eqb_neq in Hne. now rewrite Hne. }
  rewrite (loadConfig_from_default _ _ _ _ _ _ He Hmsg). unfold default_config.
  rewrite Hrv, Hkey.
  do 2 eexists. split; [reflexivity |].
  destruct (reachable_template_shape _ _ Hreach) as (Hids & _).
  destruct (template_after_frame rv s) as (Fids & _).
  assert (Hslot : lookup "identifiers" (copy_after rv s)
                  = Some (Own (VObj (assign aidName
                                       (VObj [ ("agent", VStr "gleif-agent-1");
                                               ("name", VStr aidName) ])
                                       (identifiers_obj initial_store))))).
  { unfold copy_after. rewrite Hkey, Haid, lookup_assign_same, Fids, Hids. reflexivity. }
  split; [| split].
  - rewrite at_path_copied, Hslot. unfold read_slot.
    rewrite at_path_cons, lookup_assign_same. reflexivity.
  - intros k Hk. rewrite !at_path_copied, Hslot.
    change (lookup "identifiers" DEFAULT_CLIENT_CONFIG) with (Some (Shared RIdentifiers)).
    unfold read_slot, deref.
    now rewrite !at_path_cons, lookup_assign_other.
  - now rewrite Fids.
Qed.

Lemma loadConfig_default_aidName_witness :
  exists config s',
    loadConfig (fun _ => None) offline "client"
      (VObj [ ("aidName", VStr "browser-extension-aid") ]) initial_store
    = (Ret config, s')
    /\ at_path (snapshot s' config) [ "identifiers"; "browser-extension-aid"; "agent" ]
       = VStr "gleif-agent-1"
    /\ at_path (snapshot s' (Copied DEFAULT_CLIENT_CONFIG))
         [ "identifiers"; "browser-extension-aid"; "agent" ]
       = VStr "browser_extension".
Proof.
  destruct (loadConfig_default_aidName (fun _ => None) offline "client"
              (VObj [ ("aidName", VStr "browser-extension-aid") ]) initial_store
              "browser-extension-aid")
    as (config & s' & Hload & Hnew & _ & Hids).
  - apply reach_initial.
  - reflexivity.
  - reflexivity.
  - reflexivity.
  - reflexivity.
  - discriminate.
  - exists config, s'. split; [exact Hload |]. split.
    + change [ "identifiers"; "browser-extension-aid"; "agent" ]
        with ([ "identifiers"; "browser-extension-aid" ] ++ [ "agent" ])%list.
      rewrite at_path_app, Hnew. reflexivity.
    + rewrite at_path_copied. simpl lookup. unfold read_slot, deref.
      rewrite Hids. reflexivity.
Defined.

(** ** Repeated calls *)

Lemma store_ext (s1 s2 : store) :
  secrets_obj s1 = secrets_obj s2 -> agents_obj s1 = agents_obj s2 ->
  identifiers_obj s1 = identifiers_obj s2 -> users_arr s1 = users_arr s2 ->
  credentials_obj s1 = credentials_obj s2 -> s1 = s2.
Proof.
  destruct s1, s2. simpl. intros -> -> -> -> ->. reflexivity.
Qed.

(** Rebuilding a rebuilt entry from the same overlay gives it back. *)
Lemma with_runtime_values_again entry agentUrl bootUrl passcode bran :
  with_runtime_values (with_runtime_values entry agentUrl bootUrl passcode bran)
    agentUrl bootUrl passcode bran
  = with_runtime_values entry agentUrl bootUrl passcode bran.
Proof.
  destruct (with_runtime_values_present entry agentUrl bootUrl passcode bran)
    as (ps & Hps & Hurl & Hboot & Hpass).
  destruct (with_runtime_values_lookup entry agentUrl bootUrl passcode bran "bran")
    as (ps' & Hps' & Hbran).
  rewrite Hps in Hps'. injection Hps' as <-.
  assert (Hnodup : NoDup (map fst ps)).
  { unfold with_runtime_values in Hps. injection Hps as <-. apply literal_nodup. }
  rewrite Hps. unfold with_runtime_values at 1. cbn [own_enumerable].
  f_equal. unfold literal. rewrite fold_left_app.
  change (fold_left (fun acc kv => assign (fst kv) (snd kv) acc) ps []) with (literal ps).
  rewrite (literal_of_distinct ps Hnodup).
  apply fold_assign_same.
  unfold bran_if_provided in *.
  destruct (truthy bran); simpl in Hbran; repeat constructor; assumption.
Qed.

Lemma template_after_again runtimeValues s :
  template_after runtimeValues (template_after runtimeValues s)
  = template_after runtimeValues s.
Proof.
  destruct (template_after_frame runtimeValues (template_after runtimeValues s))
    as (Fids & Fusers & Fcreds).
  apply store_ext; try assumption.
  - rewrite template_after_secrets.
    destruct (truthy (prop_of runtimeValues "passcode")) eqn:Hpass; [| reflexivity].
    rewrite template_after_secrets, Hpass. apply assign_assign.
  - rewrite template_after_agents.
    rewrite (template_after_agents runtimeValues s).
    destruct (truthy (prop_of (VObj (agents_obj s)) "browser_extension")) eqn:Hentry.
    + assert (Hnew : forall x agents,
                 prop_of (VObj (assign "browser_extension" x agents)) "browser_extension" = x).
      { intros x agents. unfold prop_of, get_prop. now rewrite lookup_assign_same. }
      rewrite Hnew. unfold with_runtime_values at 1. simpl truthy. cbv iota.
      fold (with_runtime_values
              (with_runtime_values (prop_of (VObj (agents_obj s)) "browser_extension")
                 (prop_of runtimeValues "agentUrl") (prop_of runtimeValues "bootUrl")
                 (prop_of runtimeValues "passcode") (prop_of runtimeValues "bran"))
              (prop_of runtimeValues "agentUrl") (prop_of runtimeValues "bootUrl")
              (prop_of runtimeValues "passcode") (prop_of runtimeValues "bran")).
      rewrite with_runtime_values_again. apply assign_assign.
    + now rewrite Hentry.
Qed.

Lemma copy_after_frame runtimeValues s1 s2 :
  identifiers_obj s1 = identifiers_obj s2 ->
  copy_after runtimeValues s1 = copy_after runtimeValues s2.
Proof.
  intros H. unfold copy_after.
  destruct (template_after_frame runtimeValues s1) as (-> & _).
  destruct (template_after_frame runtimeValues s2) as (-> & _).
  now rewrite H.
Qed.

(** X6.  With the bundled file unavailable, calling [loadConfig] again with
    the same name and overlay gives the same result and leaves the template as
    the first call left it, from any state of the template. *)
Theorem loadConfig_default_again :
  forall (JSON_parse : string -> option value) (w : world) (name : string)
         (runtimeValues : value) (s : store),
    file_unavailable (fetch w ("src/user_config/" ++ name ++ ".json")) = true ->
    loadConfig JSON_parse w name runtimeValues
      (snd (loadConfig JSON_parse w name runtimeValues s))
    = loadConfig JSON_parse w name runtimeValues s.
Proof.
  intros JSON_parse w name rv s Hfile.
  destruct (config_from_file_unavailable JSON_parse w name rv Hfile) as (e & He & _).
  destruct (loggable e) eqn:Hmsg.
  - rewrite !(loadConfig_from_default _ _ _ _ _ _ He Hmsg). unfold default_config.
    destruct (truthy rv); [| reflexivity]. cbn [snd].
    rewrite template_after_again.
    rewrite (copy_after_frame rv (template_after rv s) s); [reflexivity |].
    apply template_after_frame.
  - now rewrite !(loadConfig_null _ _ _ _ _ _ He Hmsg).
Qed.

Lemma loadConfig_default_again_witness :
  loadConfig (fun _ => None) offline "client"
    (VObj [ ("passcode", VStr "P"); ("bran", VStr "BR"); ("aidName", VStr "aid") ])
    (snd (loadConfig (fun _ => None) offline "client"
            (VObj [ ("passcode", VStr "P"); ("bran", VStr "BR"); ("aidName", VStr "aid") ])
            initial_store))
  = loadConfig (fun _ => None) offline "client"
      (VObj [ ("passcode", VStr "P"); ("bran", VStr "BR"); ("aidName", VStr "aid") ])
      initial_store.
Proof.
  apply (loadConfig_default_again (fun _ => None) offline "client"). reflexivity.
Defined.

(** X7.  Without runtime values ([undefined], [null] or another falsy
    value) [loadConfig] changes nothing: the template is left as it was, and
    the call resolves to the bundled file as parsed, or, the file being
    unavailable, to a copy of the template as it is when the [catch] can log
    the failure and to [null] when it cannot. *)
Theorem loadConfig_without_runtime_values :
  forall (JSON_parse : string -> option value) (w : world) (name : string)
         (runtimeValues : value) (s : store),
    truthy runtimeValues = false ->
    snd (loadConfig JSON_parse w name runtimeValues s) = s
    /\ (forall status configText parsed,
           fetch w ("src/user_config/" ++ name ++ ".json")
           = Ret {| ok := true; status := status; text := Ret configText |} ->
           JSON_parse configText = Some parsed ->
           fst (loadConfig JSON_parse w name runtimeValues s) = Ret (Parsed parsed))
    /\ (file_unavailable (fetch w ("src/user_config/" ++ name ++ ".json")) = true ->
        fst (loadConfig JSON_parse w name runtimeValues s)
        = if failure_loggable (fetch w ("src/user_config/" ++ name ++ ".json"))
          then Ret (Copied DEFAULT_CLIENT_CONFIG)
          else Ret (Parsed VNull)).
Proof.
  intros JSON_parse w name rv s Hrv. split; [| split].
  - destruct (config_from_file JSON_parse w name rv) as [v | e] eqn:Hfile.
    + now rewrite (loadConfig_from_file _ _ _ _ _ _ Hfile).
    + destruct (loggable e) eqn:Hmsg.
      * rewrite (loadConfig_from_default _ _ _ _ _ _ Hfile Hmsg).
        unfold default_config. now rewrite Hrv.
      * now rewrite (loadConfig_null _ _ _ _ _ _ Hfile Hmsg).
  - intros status configText parsed Hfetch Hparse.
    rewrite (loadConfig_from_file JSON_parse w name rv s parsed); [reflexivity |].
    unfold config_from_file, bind, JSON_parse_js. rewrite Hfetch. simpl.
    now rewrite Hparse, Hrv.
  - intros Hfile.
    destruct (config_from_file_unavailable JSON_parse w name rv Hfile) as (e & He & Hmsg).
    rewrite <- Hmsg. destruct (loggable e) eqn:Hlog.
    + rewrite (loadConfig_from_default _ _ _ _ _ _ He Hlog).
      unfold default_config. now rewrite Hrv.
    + now rewrite (loadConfig_null _ _ _ _ _ _ He Hlog).
Qed.

Lemma loadConfig_without_runtime_values_witness :
  loadConfig (fun _ => Some parsed_config) serving_config "client" VUndef initial_store
  = (Ret (Parsed parsed_config), initial_store)
  /\ loadConfig (fun _ => None) offline "client" VNull initial_store
     = (Ret (Copied DEFAULT_CLIENT_CONFIG), initial_store)
  /\ loadConfig (fun _ => None) rejecting_with_undefined "client" VNull initial_store
     = (Ret (Parsed VNull), initial_store).
Proof.
  split; [| split].
  - destruct (loadConfig_without_runtime_values (fun _ => Some parsed_config)
                serving_config "client" VUndef initial_store eq_refl)
      as (Hstore & Hfile & _).
    specialize (Hfile 200%Z "config" parsed_config eq_refl eq_refl).
    destruct (loadConfig _ _ _ _ _) as [r s']. simpl in *. now subst.
  - destruct (loadConfig_without_runtime_values (fun _ => None)
                offline "client" VNull initial_store eq_refl)
      as (Hstore & _ & Hdefault).
    specialize (Hdefault eq_refl).
    destruct (loadConfig _ _ _ _ _) as [r s']. simpl in *. now subst.
  - destruct (loadConfig_without_runtime_values (fun _ => None)
                rejecting_with_undefined "client" VNull initial_store eq_refl)
      as (Hstore & _ & Hdefault).
    specialize (Hdefault eq_refl).
    destruct (loadConfig _ _ _ _ _) as [r s']. simpl in *. now subst.
Defined.

(** ** The file branch *)

Lemma update_in_two_steps config runtimeValues :
  update_with_runtime_values config runtimeValues
  = (config' <- update_agent_entry config runtimeValues ;;
     update_top_level config' runtimeValues).
Proof.
  unfold update_with_runtime_values, update_agent_entry, update_top_level, bind.
  destruct (get_prop config "agents") as [agents |]; [| reflexivity].
  destruct (if truthy agents then get_prop agents "gleif-agent-1" else Ret agents)
    as [entry |]; [| reflexivity].
  destruct (truthy entry); [| reflexivity].
  destruct (get_prop runtimeValues "agentUrl"); [| reflexivity].
  destruct (get_prop runtimeValues "bootUrl"); [| reflexivity].
  destruct (get_prop runtimeValues "passcode"); [| reflexivity].
  destruct (get_prop runtimeValues "bran"); [| reflexivity].
  destruct (set_prop agents "gleif-agent-1" _); reflexivity.
Qed.

Lemma get_prop_throws base k e : get_prop base k = Throw e -> loggable e = true.
Proof.
  destruct base as [| | b | n | str | ps | ps | tag]; simpl;
    try discriminate; try (destruct (lookup k ps); discriminate);
    intros [= <-]; reflexivity.
Qed.

Lemma set_prop_throws base k v e : set_prop base k v = Throw e -> loggable e = true.
Proof.
  destruct base as [| | b | n | str | ps | ps | tag]; simpl; try discriminate;
    try (intros [= <-]; reflexivity).
  - destruct ((k =? "__proto__") && negb (has_key k ps)); discriminate.
  - destruct ((k =? "__proto__") && negb (has_key k ps)); [discriminate |].
    destruct (k =? "length"); [| discriminate].
    destruct v; try (intros [= <-]; reflexivity).
    match goal with
    | |- (if ?c then _ else _) = _ -> _ => destruct c
    end; [discriminate |].
    intros [= <-]. reflexivity.
Qed.

(** What the update of a parsed config throws is an [Error]: the [catch]
    can log it. *)
Lemma update_throws config runtimeValues e :
  truthy runtimeValues = true ->
  update_with_runtime_values config runtimeValues = Throw e ->
  loggable e = true.
Proof.
  intros Hrv. rewrite update_in_two_steps.
  unfold update_agent_entry, update_top_level.
  rewrite !(get_prop_truthy runtimeValues) by assumption. cbn [bind].
  destruct (get_prop config "agents") as [agents | e0] eqn:Hagents; cbn [bind];
    [| intros [= <-]; eauto using get_prop_throws].
  destruct (if truthy agents then get_prop agents "gleif-agent-1" else Ret agents)
    as [entry | e0] eqn:Hentry; cbn [bind].
  2:{ intros [= <-]. destruct (truthy agents); [| discriminate].
      eauto using get_prop_throws. }
  destruct (if truthy entry
            then agents' <- set_prop agents "gleif-agent-1" _ ;;
                 Ret (mutated config "agents" agents')
            else Ret config) as [config1 | e0] eqn:Hconfig1; cbn [bind].
  2:{ intros [= <-]. destruct (truthy entry); [| discriminate].
      destruct (set_prop agents "gleif-agent-1" _) eqn:Hset; [discriminate |].
      cbn [bind] in Hconfig1. injection Hconfig1 as <-.
      eauto using set_prop_throws. }
  destruct (set_prop config1 "agentUrl" _) as [config2 | e0] eqn:H2; cbn [bind];
    [| intros [= <-]; eauto using set_prop_throws].
  destruct (set_prop config2 "bootUrl" _) as [config3 | e0] eqn:H3; cbn [bind];
    [| intros [= <-]; eauto using set_prop_throws].
  destruct (if truthy (prop_of runtimeValues "bran")
            then set_prop config3 "bran" (prop_of runtimeValues "bran")
            else Ret config3) as [config4 | e0] eqn:H4; cbn [bind].
  2:{ intros [= <-]. destruct (truthy (prop_of runtimeValues "bran")); [| discriminate].
      eauto using set_prop_throws. }
  destruct (if truthy (prop_of runtimeValues "aidName")
            then get_prop config4 "identifiers"
            else Ret (prop_of runtimeValues "aidName")) as [identifiers | e0] eqn:H5;
    cbn [bind].
  2:{ intros [= <-]. destruct (truthy (prop_of runtimeValues "aidName")); [| discriminate].
      eauto using get_prop_throws. }
  destruct (truthy identifiers); [| discriminate].
  destruct (to_property_key _) as [key | e0] eqn:Hkey; cbn [bind].
  2:{ intros [= <-]. apply to_string_throws in Hkey as (kind & msg & ->). reflexivity. }
  destruct (set_prop identifiers _ _) as [identifiers' | e0] eqn:H6; cbn [bind];
    [discriminate | intros [= <-]; eauto using set_prop_throws].
Qed.

(** X10.  An error while the overlay is applied to the parsed bundled file
    is swallowed: the inner [catch] logs it and the default branch answers,
    so that the call resolves to the default template with the overlay
    ([default_config]) and writes the overlay into the template, exactly as
    it does on every host whose file is unavailable (the failure logged).
    JSON [null] is such a file: reading [config.agents] throws. *)
Theorem loadConfig_update_error_falls_back :
  forall (JSON_parse : string -> option value) (w : world) (name : string)
         (runtimeValues : value) (s : store) (status : Z) (configText : string)
         (parsed : value) (e : thrown),
    fetch w ("src/user_config/" ++ name ++ ".json")
    = Ret {| ok := true; status := status; text := Ret configText |} ->
    JSON_parse configText = Some parsed ->
    truthy runtimeValues = true ->
    update_with_runtime_values parsed runtimeValues = Throw e ->
    loadConfig JSON_parse w name runtimeValues s = default_config runtimeValues s
    /\ snd (loadConfig JSON_parse w name runtimeValues s) = template_after runtimeValues s
    /\ (forall key,
           aid_key runtimeValues = Ret key ->
           fst (loadConfig JSON_parse w name runtimeValues s)
           = Ret (Copied (copy_after runtimeValues s)))
    /\ (forall w' : world,
           file_unavailable (fetch w' ("src/user_config/" ++ name ++ ".json")) = true ->
           failure_loggable (fetch w' ("src/user_config/" ++ name ++ ".json")) = true ->
           loadConfig JSON_parse w' name runtimeValues s
           = loadConfig JSON_parse w name runtimeValues s).
Proof.
  intros JSON_parse w name rv s status configText parsed e
         Hfetch Hparse Hrv Hupdate.
  assert (Hleft : config_from_file JSON_parse w name rv = Throw e).
  { unfold config_from_file, bind, JSON_parse_js. rewrite Hfetch. simpl.
    now rewrite Hparse, Hrv. }
  pose proof (loadConfig_from_default _ _ _ _ s _ Hleft (update_throws _ _ _ Hrv Hupdate))
    as Hload.
  rewrite Hload. unfold default_config. rewrite Hrv.
  split; [reflexivity |]. split; [reflexivity |]. split.
  - intros key Hkey. now rewrite Hkey.
  - intros w' Hfile Hlog.
    destruct (config_from_file_unavailable JSON_parse w' name rv Hfile)
      as (e' & Hright & Hmsg').
    rewrite Hlog in Hmsg'.
    rewrite (loadConfig_from_default _ _ _ _ _ _ Hright Hmsg').
    unfold default_config. now rewrite Hrv.
Qed.

Lemma loadConfig_update_error_falls_back_witness :
  loadConfig (fun _ => Some VNull) (serving "null") "client"
    (VObj [ ("passcode", VStr "P") ]) initial_store
  = (Ret (Copied (DEFAULT_CLIENT_CONFIG
                  ++ [ ("agentUrl", Own VUndef); ("bootUrl", Own VUndef) ])%list),
     {| secrets_obj := [ ("browser_extension", VStr "P") ];
        agents_obj :=
          [ ("browser_extension",
             VObj [ ("secret", VStr "browser_extension"); ("url", VUndef);
                    ("boot_url", VUndef); ("passcode", VStr "P") ]) ];
        identifiers_obj := identifiers_obj initial_store;
        users_arr := users_arr initial_store;
        credentials_obj := [] |})
  /\ loadConfig (fun _ => Some VNull) offline "client"
       (VObj [ ("passcode", VStr "P") ]) initial_store
     = loadConfig (fun _ => Some VNull) (serving "null") "client"
         (VObj [ ("passcode", VStr "P") ]) initial_store.
Proof.
  destruct (loadConfig_update_error_falls_back (fun _ => Some VNull) (serving "null")
              "client" (VObj [ ("passcode", VStr "P") ]) initial_store 200 "null" VNull
              (TypeError "Cannot read properties of null")
              eq_refl eq_refl eq_refl eq_refl)
    as (Hload & _ & _ & Hsame).
  split; [exact Hload |].
  apply (Hsame offline); reflexivity.
Defined.

Lemma with_top_level_other top runtimeValues k :
  k <> "agentUrl" -> k <> "bootUrl" -> k <> "bran" ->
  lookup k (with_top_level top runtimeValues) = lookup k top.
Proof.
  intros H1 H2 H3. unfold with_top_level.
  destruct (truthy (prop_of runtimeValues "bran"));
    now rewrite ?lookup_assign_other by assumption.
Qed.

Lemma with_top_level_set top runtimeValues :
  lookup "agentUrl" (with_top_level top runtimeValues)
  = Some (prop_of runtimeValues "agentUrl")
  /\ lookup "bootUrl" (with_top_level top runtimeValues)
     = Some (prop_of runtimeValues "bootUrl")
  /\ (truthy (prop_of runtimeValues "bran") = true ->
      lookup "bran" (with_top_level top runtimeValues)
      = Some (prop_of runtimeValues "bran")).
Proof.
  unfold with_top_level.
  destruct (truthy (prop_of runtimeValues "bran")); repeat split; try discriminate;
    intros; rewrite ?lookup_assign_other by discriminate;
    now rewrite lookup_assign_same.
Qed.

(** The statements after the agent entry, on a parsed object. *)
Lemma update_top_level_object top runtimeValues :
  truthy runtimeValues = true ->
  update_top_level (VObj top) runtimeValues
  = (identifiers <- (if truthy (prop_of runtimeValues "aidName")
                     then get_prop (VObj (with_top_level top runtimeValues)) "identifiers"
                     else Ret (prop_of runtimeValues "aidName")) ;;
     if truthy identifiers then
       key <- to_property_key (prop_of runtimeValues "aidName") ;;
       identifiers' <- set_prop identifiers key
                         (VObj [ ("agent", VStr "gleif-agent-1");
                                 ("name", prop_of runtimeValues "aidName") ]) ;;
       Ret (mutated (VObj (with_top_level top runtimeValues)) "identifiers" identifiers')
     else Ret (VObj (with_top_level top runtimeValues))).
Proof.
  intros Hrv. unfold update_top_level, with_top_level.
  rewrite !(get_prop_truthy runtimeValues) by assumption.
  cbn [bind set_prop]. simpl andb. cbv iota. cbn [bind].
  destruct (truthy (prop_of runtimeValues "bran")); cbn [bind set_prop]; simpl andb;
    cbv iota; cbn [bind]; reflexivity.
Qed.

(** The agent entry of a parsed object: rebuilt when it is there and truthy. *)
Lemma update_agent_entry_present top agents entry runtimeValues :
  truthy runtimeValues = true ->
  lookup "agents" top = Some (VObj agents) ->
  lookup "gleif-agent-1" agents = Some entry ->
  truthy entry = true ->
  update_agent_entry (VObj top) runtimeValues
  = Ret (VObj (assign "agents"
                 (VObj (assign "gleif-agent-1"
                          (with_runtime_values entry
                             (prop_of runtimeValues "agentUrl")
                             (prop_of runtimeValues "bootUrl")
                             (prop_of runtimeValues "passcode")
                             (prop_of runtimeValues "bran"))
                          agents))
                 top)).
Proof.
  intros Hrv Hagents Hentry Htruthy. unfold update_agent_entry.
  rewrite !(get_prop_truthy runtimeValues) by assumption.
  unfold get_prop at 1. rewrite Hagents. cbn [bind truthy].
  unfold get_prop at 1. rewrite Hentry. cbn [bind]. rewrite Htruthy.
  cbn [bind set_prop]. simpl andb. cbv iota. reflexivity.
Qed.

(** On any parsed object the first statement succeeds; it touches [agents]
    only and keeps the keys of [agents]. *)
Lemma update_agent_entry_object top runtimeValues :
  truthy runtimeValues = true ->
  exists top1,
    update_agent_entry (VObj top) runtimeValues = Ret (VObj top1)
    /\ (forall k, k <> "agents" -> lookup k top1 = lookup k top)
    /\ (forall a, has_at (VObj top1) [ "agents" ] a = has_at (VObj top) [ "agents" ] a)
    /\ (truthy (at_path (VObj top) [ "agents"; "gleif-agent-1" ]) = false -> top1 = top).
Proof.
  intros Hrv. unfold update_agent_entry.
  rewrite !(get_prop_truthy runtimeValues) by assumption.
  destruct (get_prop (VObj top) "agents") as [agents |] eqn:Hagents;
    [| simpl in Hagents; destruct (lookup "agents" top); discriminate].
  cbn [bind].
  destruct (truthy agents) eqn:Htruthy.
  - destruct (get_prop_own _ _ _ Hagents Htruthy eq_refl) as (ps & Hshape & Hps).
    destruct Hshape as [Hshape | Hshape]; [| discriminate]. injection Hshape as <-.
    rewrite (get_prop_truthy agents) by assumption. cbn [bind].
    destruct (truthy (prop_of agents "gleif-agent-1")) eqn:Htruthy'.
    + destruct (get_prop_own agents "gleif-agent-1" (prop_of agents "gleif-agent-1"))
        as (qs & Hshape & Hqs);
        [now apply get_prop_truthy | assumption | reflexivity |].
      cbn [bind].
      assert (Hset : forall x,
                 exists agents',
                   set_prop agents "gleif-agent-1" x = Ret agents'
                   /\ forall a, has_at agents' [] a = has_at agents [] a).
      { intros x. destruct Hshape as [-> | ->]; cbn [set_prop]; simpl andb; cbv iota;
          eexists; (split; [reflexivity |]); intros a;
          unfold has_at, at_path, has_key;
          (destruct (String.eqb_spec a "gleif-agent-1") as [-> | Hne];
           [ now rewrite lookup_assign_same, Hqs
           | now rewrite lookup_assign_other ]). }
      destruct (Hset (with_runtime_values (prop_of agents "gleif-agent-1")
                        (prop_of runtimeValues "agentUrl") (prop_of runtimeValues "bootUrl")
                        (prop_of runtimeValues "passcode") (prop_of runtimeValues "bran")))
        as (agents' & -> & Hkeys).
      cbn [bind mutated]. eexists. split; [reflexivity |]. split; [| split].
      * intros k Hk. now apply lookup_assign_other.
      * intros a. unfold has_at. rewrite !at_path_cons, lookup_assign_same, Hps.
        apply Hkeys.
      * intros Hfalsy. rewrite !at_path_cons, Hps in Hfalsy.
        destruct Hshape as [-> | ->]; rewrite at_path_cons in Hfalsy || idtac;
          unfold prop_of, get_prop in Htruthy'; rewrite Hqs in Htruthy';
          unfold at_path in Hfalsy; rewrite Hqs in Hfalsy; congruence.
    + cbn [bind]. exists top. repeat split; auto.
  - cbn [bind]. rewrite Htruthy. exists top. repeat split; auto.
Qed.

Lemma config_from_file_parsed JSON_parse w name runtimeValues status configText parsed :
  fetch w ("src/user_config/" ++ name ++ ".json")
  = Ret {| ok := true; status := status; text := Ret configText |} ->
  JSON_parse configText = Some parsed ->
  truthy runtimeValues = true ->
  config_from_file JSON_parse w name runtimeValues
  = update_with_runtime_values parsed runtimeValues.
Proof.
  intros Hfetch Hparse Hrv.
  unfold config_from_file, bind, JSON_parse_js. rewrite Hfetch. simpl.
  now rewrite Hparse, Hrv.
Qed.

(** X8.  When the bundled file parses to an object whose [agents] has an
    object under ['gleif-agent-1'], a truthy overlay without [aidName] is
    merged into it: the entry gets [url], [boot_url] and [passcode] from the
    overlay (and [bran] if truthy) and keeps its other keys, the other agents
    are kept, the top level gets [agentUrl] and [bootUrl] (and [bran] if
    truthy) and keeps its other keys; the template is not touched. *)
Theorem loadConfig_file_merges_overlay :
  forall (JSON_parse : string -> option value) (w : world) (name : string)
         (runtimeValues : value) (s : store) (status : Z) (configText : string)
         (top agents entry : props),
    fetch w ("src/user_config/" ++ name ++ ".json")
    = Ret {| ok := true; status := status; text := Ret configText |} ->
    JSON_parse configText = Some (VObj top) ->
    lookup "agents" top = Some (VObj agents) ->
    lookup "gleif-agent-1" agents = Some (VObj entry) ->
    NoDup (map fst entry) ->
    truthy runtimeValues = true ->
    truthy (prop_of runtimeValues "aidName") = false ->
    exists v,
      loadConfig JSON_parse w name runtimeValues s = (Ret (Parsed v), s)
      /\ at_path v [ "agents"; "gleif-agent-1"; "url" ] = prop_of runtimeValues "agentUrl"
      /\ at_path v [ "agents"; "gleif-agent-1"; "boot_url" ] = prop_of runtimeValues "bootUrl"
      /\ at_path v [ "agents"; "gleif-agent-1"; "passcode" ]
         = prop_of runtimeValues "passcode"
      /\ (forall k,
             k <> "url" -> k <> "boot_url" -> k <> "passcode" -> k <> "bran" ->
             at_path v [ "agents"; "gleif-agent-1"; k ]
             = at_path (VObj top) [ "agents"; "gleif-agent-1"; k ])
      /\ (forall a,
             a <> "gleif-agent-1" ->
             at_path v [ "agents"; a ] = at_path (VObj top) [ "agents"; a ])
      /\ at_path v [ "agentUrl" ] = prop_of runtimeValues "agentUrl"
      /\ at_path v [ "bootUrl" ] = prop_of runtimeValues "bootUrl"
      /\ (truthy (prop_of runtimeValues "bran") = true ->
          at_path v [ "bran" ] = prop_of runtimeValues "bran"
          /\ at_path v [ "agents"; "gleif-agent-1"; "bran" ] = prop_of runtimeValues "bran")
      /\ (forall k,
             k <> "agents" -> k <> "agentUrl" -> k <> "bootUrl" -> k <> "bran" ->
             at_path v [ k ] = at_path (VObj top) [ k ]).
Proof.
  intros JSON_parse w name rv s status configText top agents entry
         Hfetch Hparse Hagents Hentry Hnodup Hrv Haid.
  eexists. split.
  { apply loadConfig_from_file.
    rewrite (config_from_file_parsed _ _ _ _ _ _ _ Hfetch Hparse Hrv).
    rewrite update_in_two_steps.
    rewrite (update_agent_entry_present top agents (VObj entry) rv Hrv Hagents Hentry eq_refl).
    cbn [bind]. rewrite update_top_level_object by assumption.
    rewrite Haid. cbn [bind]. rewrite Haid. reflexivity. }
  set (rebuilt := with_runtime_values (VObj entry) (prop_of rv "agentUrl")
                    (prop_of rv "bootUrl") (prop_of rv "passcode") (prop_of rv "bran")).
  set (top1 := assign "agents" (VObj (assign "gleif-agent-1" rebuilt agents)) top).
  assert (Hdeep : forall rest,
             at_path (VObj (with_top_level top1 rv)) ("agents" :: "gleif-agent-1" :: rest)
             = at_path rebuilt rest).
  { intros rest. rewrite at_path_cons, with_top_level_other by discriminate.
    subst top1. rewrite lookup_assign_same, at_path_cons, lookup_assign_same.
    reflexivity. }
  destruct (with_runtime_values_present (VObj entry) (prop_of rv "agentUrl")
              (prop_of rv "bootUrl") (prop_of rv "passcode") (prop_of rv "bran"))
    as (ps & Hps & Hurl & Hboot & Hpass).
  fold rebuilt in Hps.
  destruct (with_top_level_set top1 rv) as (HagentUrl & HbootUrl & Hbran).
  rewrite !Hdeep, Hps, !at_path_cons, Hurl, Hboot, Hpass, HagentUrl, HbootUrl.
  repeat split.
  - intros k H1 H2 H3 H4. rewrite Hdeep, Hps.
    destruct (with_runtime_values_keeps entry (prop_of rv "agentUrl")
                (prop_of rv "bootUrl") (prop_of rv "passcode") (prop_of rv "bran")
                k Hnodup H1 H2 H3 H4) as (ps' & Hps' & _ & Hkeep).
    fold rebuilt in Hps'. rewrite Hps in Hps'. injection Hps' as <-.
    rewrite !at_path_cons, Hagents, at_path_cons, Hentry, at_path_cons, Hkeep.
    reflexivity.
  - intros a Ha. rewrite !at_path_cons, with_top_level_other by discriminate.
    subst top1. rewrite lookup_assign_same, Hagents, !at_path_cons.
    now rewrite lookup_assign_other.
  - rewrite (Hbran H). reflexivity.
  - destruct (with_runtime_values_lookup (VObj entry) (prop_of rv "agentUrl")
                (prop_of rv "bootUrl") (prop_of rv "passcode") (prop_of rv "bran") "bran")
      as (ps' & Hps' & Hk).
    fold rebuilt in Hps'. rewrite Hps in Hps'. injection Hps' as <-.
    rewrite Hk. unfold bran_if_provided. rewrite H. reflexivity.
  - intros k H1 H2 H3 H4. rewrite !at_path_cons, with_top_level_other by assumption.
    subst top1. now rewrite lookup_assign_other.
Qed.

Lemma loadConfig_file_merges_overlay_witness :
  exists v,
    loadConfig (fun _ => Some parsed_config) serving_config "client"
      (VObj [ ("agentUrl", VStr "U"); ("passcode", VStr "P") ]) initial_store
    = (Ret (Parsed v), initial_store)
    /\ at_path v [ "agents"; "gleif-agent-1"; "url" ] = VStr "U"
    /\ at_path v [ "agents"; "gleif-agent-1"; "boot_url" ] = VUndef
    /\ at_path v [ "agents"; "gleif-agent-1"; "secret" ] = VStr "s1".
Proof.
  destruct (loadConfig_file_merges_overlay (fun _ => Some parsed_config) serving_config
              "client" (VObj [ ("agentUrl", VStr "U"); ("passcode", VStr "P") ])
              initial_store 200 "config"
              [ ("agents", VObj [ ("gleif-agent-1", VObj [ ("secret", VStr "s1") ]) ]);
                ("identifiers", VObj []) ]
              [ ("gleif-agent-1", VObj [ ("secret", VStr "s1") ]) ]
              [ ("secret", VStr "s1") ])
    as (v & Hload & Hurl & Hboot & _ & Hkeep & _); try reflexivity.
  - repeat constructor. simpl. tauto.
  - exists v. repeat split; try assumption.
    rewrite Hkeep by discriminate. reflexivity.
Defined.

(** X9.  When the bundled file parses to an object whose [identifiers] is an
    object, a truthy overlay whose [aidName] is a string (not empty, not
    ["__proto__"]) puts [{agent: "gleif-agent-1", name: aidName}] under that
    key and keeps every other identifier, whatever [agents] is; [agents]
    keeps its keys, so the new identifier names an agent of the result exactly
    if the file has the agent ['gleif-agent-1']; the template is not
    touched. *)
Theorem loadConfig_file_aidName :
  forall (JSON_parse : string -> option value) (w : world) (name : string)
         (runtimeValues : value) (s : store) (status : Z) (configText : string)
         (top identifiers : props) (aidName : string),
    fetch w ("src/user_config/" ++ name ++ ".json")
    = Ret {| ok := true; status := status; text := Ret configText |} ->
    JSON_parse configText = Some (VObj top) ->
    lookup "identifiers" top = Some (VObj identifiers) ->
    truthy runtimeValues = true ->
    prop_of runtimeValues "aidName" = VStr aidName ->
    aidName <> "" ->
    aidName <> "__proto__" ->
    exists v,
      loadConfig JSON_parse w name runtimeValues s = (Ret (Parsed v), s)
      /\ at_path v [ "identifiers"; aidName ]
         = VObj [ ("agent", VStr "gleif-agent-1"); ("name", VStr aidName) ]
      /\ (forall k,
             k <> aidName ->
             at_path v [ "identifiers"; k ] = at_path (VObj top) [ "identifiers"; k ])
      /\ (forall a, has_at v [ "agents" ] a = has_at (VObj top) [ "agents" ] a).
Proof.
  intros JSON_parse w name rv s status configText top identifiers aidName
         Hfetch Hparse Hids Hrv Haid Hne Hkey.
  destruct (update_agent_entry_object top rv Hrv) as (top1 & Hstep & Hother & Hkeys & _).
  assert (Hids1 : lookup "identifiers" (with_top_level top1 rv) = Some (VObj identifiers)).
  { rewrite with_top_level_other by discriminate. rewrite Hother by discriminate.
    exact Hids. }
  assert (Htruthy : truthy (VStr aidName) = true)
    by (simpl; apply String.eqb_neq in Hne; now rewrite Hne).
  apply String.eqb_neq in Hkey.
  eexists. split.
  { apply loadConfig_from_file.
    rewrite (config_from_file_parsed _ _ _ _ _ _ _ Hfetch Hparse Hrv).
    rewrite update_in_two_steps, Hstep. cbn [bind].
    rewrite update_top_level_object by assumption.
    rewrite Haid, Htruthy. unfold get_prop at 1. rewrite Hids1.
    cbn [bind truthy]. unfold to_property_key, to_string. cbn [conversion string_of_primitive bind set_prop].
    rewrite Hkey. cbn [andb bind mutated]. reflexivity. }
  split; [| split].
  - rewrite at_path_cons, lookup_assign_same, at_path_cons, lookup_assign_same.
    reflexivity.
  - intros k Hk. rewrite !at_path_cons, lookup_assign_same, Hids.
    rewrite !at_path_cons. now rewrite lookup_assign_other.
  - intros a. rewrite <- Hkeys. unfold has_at.
    rewrite !at_path_cons, lookup_assign_other by discriminate.
    now rewrite with_top_level_other by discriminate.
Qed.

Lemma loadConfig_file_aidName_witness :
  exists v,
    loadConfig (fun _ => Some parsed_config) serving_config "client"
      (VObj [ ("aidName", VStr "my-aid") ]) initial_store
    = (Ret (Parsed v), initial_store)
    /\ at_path v [ "identifiers"; "my-aid" ]
       = VObj [ ("agent", VStr "gleif-agent-1"); ("name", VStr "my-aid") ]
    /\ has_at v [ "agents" ] "gleif-agent-1" = true.
Proof.
  destruct (loadConfig_file_aidName (fun _ => Some parsed_config) serving_config
              "client" (VObj [ ("aidName", VStr "my-aid") ]) initial_store 200 "config"
              [ ("agents", VObj [ ("gleif-agent-1", VObj [ ("secret", VStr "s1") ]) ]);
                ("identifiers", VObj []) ]
              [] "my-aid")
    as (v & Hload & Hnew & _ & Hagents); try reflexivity; try discriminate.
  exists v. split; [exact Hload |]. split; [exact Hnew |].
  rewrite Hagents. reflexivity.
Defined.

(** X11.  When the bundled file parses to an object without a truthy
    ['gleif-agent-1'] entry under [agents] (no [agents], no such key, or a
    [null] entry), a truthy overlay without [aidName] creates no agent entry:
    [agents] is as parsed, and the overlay's [passcode] is stored nowhere;
    only [agentUrl], [bootUrl] and a truthy [bran] appear at the top level. *)
Theorem loadConfig_file_without_agent :
  forall (JSON_parse : string -> option value) (w : world) (name : string)
         (runtimeValues : value) (s : store) (status : Z) (configText : string)
         (top : props),
    fetch w ("src/user_config/" ++ name ++ ".json")
    = Ret {| ok := true; status := status; text := Ret configText |} ->
    JSON_parse configText = Some (VObj top) ->
    truthy (at_path (VObj top) [ "agents"; "gleif-agent-1" ]) = false ->
    truthy runtimeValues = true ->
    truthy (prop_of runtimeValues "aidName") = false ->
    loadConfig JSON_parse w name runtimeValues s
    = (Ret (Parsed (VObj (with_top_level top runtimeValues))), s)
    /\ at_path (VObj (with_top_level top runtimeValues)) [ "agents" ]
       = at_path (VObj top) [ "agents" ]
    /\ (forall k,
           k <> "agentUrl" -> k <> "bootUrl" -> k <> "bran" ->
           at_path (VObj (with_top_level top runtimeValues)) [ k ]
           = at_path (VObj top) [ k ]).
Proof.
  intros JSON_parse w name rv s status configText top Hfetch Hparse Hentry Hrv Haid.
  destruct (update_agent_entry_object top rv Hrv) as (top1 & Hstep & _ & _ & Hsame).
  rewrite (Hsame Hentry) in Hstep.
  split; [| split].
  - apply loadConfig_from_file.
    rewrite (config_from_file_parsed _ _ _ _ _ _ _ Hfetch Hparse Hrv).
    rewrite update_in_two_steps, Hstep. cbn [bind].
    rewrite update_top_level_object by assumption.
    rewrite Haid. cbn [bind]. rewrite Haid. reflexivity.
  - now rewrite !at_path_cons, with_top_level_other by discriminate.
  - intros k H1 H2 H3. now rewrite !at_path_cons, with_top_level_other.
Qed.

Lemma loadConfig_file_without_agent_witness :
  loadConfig (fun _ => Some (VObj [ ("agents", VObj []) ])) (serving "{}") "client"
    (VObj [ ("agentUrl", VStr "U"); ("passcode", VStr "P") ]) initial_store
  = (Ret (Parsed (VObj [ ("agents", VObj []); ("agentUrl", VStr "U");
                         ("bootUrl", VUndef) ])),
     initial_store).
Proof.
  apply (loadConfig_file_without_agent (fun _ => Some (VObj [ ("agents", VObj []) ]))
           (serving "{}") "client" (VObj [ ("agentUrl", VStr "U"); ("passcode", VStr "P") ])
           initial_store 200 "{}" [ ("agents", VObj []) ]); reflexivity.
Defined.

(** ** More of [loadWorkflow] *)

(** X12.  The storage tier: with the bundled file unavailable, its failure
    logged, and a name that the embedded table does not answer, a truthy
    value stored under [workflow_<name>] is parsed and returned; if its
    parse throws, the error is swallowed and the result is [null]. *)
Theorem loadWorkflow_from_storage :
  forall (yaml_load : value -> option value) (w : world) (workflowName : string)
         (storedWorkflow : value),
    file_unavailable (fetch w ("src/workflows/" ++ workflowName ++ ".yaml")) = true ->
    failure_loggable (fetch w ("src/workflows/" ++ workflowName ++ ".yaml")) = true ->
    get_prop EMBEDDED_WORKFLOWS workflowName = Ret VUndef ->
    storage_local_get w ("workflow_" ++ workflowName) = Ret storedWorkflow ->
    truthy storedWorkflow = true ->
    loadWorkflow yaml_load w workflowName
    = Ret match yaml_load storedWorkflow with
          | Some v => v
          | None => VNull
          end.
Proof.
  intros yaml_load w name stored Hfile Hlog Hembedded Hstorage Htruthy.
  destruct (workflow_from_file_unavailable yaml_load w name Hfile) as (e & He & Hmsg).
  rewrite Hlog in Hmsg.
  rewrite (loadWorkflow_unavailable yaml_load w name e He Hmsg).
  unfold workflow_after_file. rewrite Hembedded.
  simpl truthy. cbv iota.
  rewrite (embedded_absent_no_fallback name Hembedded).
  unfold workflow_from_storage, try_catch, bind, yaml_load_js.
  rewrite Hstorage, Htruthy.
  destruct (yaml_load stored); reflexivity.
Qed.

Lemma loadWorkflow_from_storage_witness :
  loadWorkflow Yaml.load (storing (VStr "workflow:
  steps:")) "my-workflow"
  = Ret (VObj [ ("workflow", VObj [ ("steps", VNull) ]) ])
  /\ loadWorkflow (fun _ => None) (storing (VStr "key: 'unterminated")) "my-workflow"
     = Ret VNull.
Proof.
  split.
  - apply (loadWorkflow_from_storage Yaml.load (storing (VStr "workflow:
  steps:")) "my-workflow" (VStr "workflow:
  steps:")); reflexivity.
  - apply (loadWorkflow_from_storage (fun _ => None)
             (storing (VStr "key: 'unterminated"))
             "my-workflow" (VStr "key: 'unterminated")); reflexivity.
Defined.

(** X13.  A workflow name that is a member of [Object.prototype]
    ([constructor], [toString], ...) is answered by the embedded table through
    inheritance: with the bundled file unavailable and its failure logged,
    [yaml.load] is applied to the inherited built-in, the storage is not
    consulted, and if that parse throws the result is [null]. *)
Theorem loadWorkflow_inherited_name :
  forall (yaml_load : value -> option value) (w : world) (workflowName : string),
    In workflowName Object_prototype ->
    file_unavailable (fetch w ("src/workflows/" ++ workflowName ++ ".yaml")) = true ->
    failure_loggable (fetch w ("src/workflows/" ++ workflowName ++ ".yaml")) = true ->
    loadWorkflow yaml_load w workflowName
    = Ret match yaml_load (VHost workflowName) with
          | Some v => v
          | None => VNull
          end.
Proof.
  intros yaml_load w name Hin Hfile Hlog.
  destruct (workflow_from_file_unavailable yaml_load w name Hfile) as (e & He & Hmsg).
  rewrite Hlog in Hmsg.
  rewrite (loadWorkflow_unavailable yaml_load w name e He Hmsg).
  unfold workflow_after_file.
  unfold Object_prototype in Hin. simpl in Hin.
  repeat (destruct Hin as [<- | Hin];
          [ simpl; destruct (yaml_load _); reflexivity | ]).
  contradiction.
Qed.

Lemma loadWorkflow_inherited_name_witness :
  loadWorkflow (fun input => Some input) (storing (VStr "stored: 'document'")) "constructor"
  = Ret (VHost "constructor").
Proof.
  apply (loadWorkflow_inherited_name (fun input => Some input)
           (storing (VStr "stored: 'document'")) "constructor").
  - simpl. tauto.
  - reflexivity.
  - reflexivity.
Defined.

(** X14.  A bundled workflow file that is fetched and parses is the result,
    for every name, those of the embedded table and of the hardcoded
    definitions included, and whatever the storage holds.  A bundled config
    that parses, and to which the overlay (if any) can be applied, is the
    result, updated; the template is neither returned nor touched. *)
Theorem bundled_file_comes_first :
  forall (yaml_load : value -> option value) (JSON_parse : string -> option value)
         (w : world) (name : string),
    (forall (status1 : Z) (yamlText : string) (workflow : value),
        fetch w ("src/workflows/" ++ name ++ ".yaml")
        = Ret {| ok := true; status := status1; text := Ret yamlText |} ->
        yaml_load (VStr yamlText) = Some workflow ->
        loadWorkflow yaml_load w name = Ret workflow)
    /\ (forall (status2 : Z) (configText : string) (parsed updated runtimeValues : value)
               (s : store),
           fetch w ("src/user_config/" ++ name ++ ".json")
           = Ret {| ok := true; status := status2; text := Ret configText |} ->
           JSON_parse configText = Some parsed ->
           (if truthy runtimeValues then update_with_runtime_values parsed runtimeValues
            else Ret parsed) = Ret updated ->
           loadConfig JSON_parse w name runtimeValues s = (Ret (Parsed updated), s)).
Proof.
  intros yaml_load JSON_parse w name. split.
  - intros status1 yamlText workflow Hwf Hyaml.
    unfold loadWorkflow, try_catch, workflow_from_file, bind, yaml_load_js.
    rewrite Hwf. simpl. now rewrite Hyaml.
  - intros status2 configText parsed updated rv s Hcfg Hjson Hupdate.
    apply loadConfig_from_file.
    unfold config_from_file, bind, JSON_parse_js. rewrite Hcfg. simpl.
    now rewrite Hjson.
Qed.

Lemma bundled_file_comes_first_witness :
  loadWorkflow Yaml.load (serving "mine: 'yes'") "create-client"
  = Ret (VObj [ ("mine", VStr "yes") ])
  /\ loadConfig (fun _ => Some parsed_config) serving_config "client"
       (VObj [ ("agentUrl", VStr "U"); ("aidName", VStr "my-aid") ]) initial_store
     = (Ret (Parsed
               (VObj [ ("agents",
                        VObj [ ("gleif-agent-1",
                                VObj [ ("secret", VStr "s1"); ("url", VStr "U");
                                       ("boot_url", VUndef); ("passcode", VUndef) ]) ]);
                       ("identifiers",
                        VObj [ ("my-aid",
                                VObj [ ("agent", VStr "gleif-agent-1");
                                       ("name", VStr "my-aid") ]) ]);
                       ("agentUrl", VStr "U");
                       ("bootUrl", VUndef) ])),
        initial_store).
Proof.
  split.
  - destruct (bundled_file_comes_first Yaml.load (fun _ => None)
                (serving "mine: 'yes'") "create-client") as [Hworkflow _].
    apply (Hworkflow 200%Z "mine: 'yes'"); reflexivity.
  - destruct (bundled_file_comes_first Yaml.load (fun _ => Some parsed_config)
                serving_config "client") as [_ Hconfig].
    apply (Hconfig 200%Z "config" parsed_config); reflexivity.
Defined.

(** ** More of the passcode *)

Lemma charAt_get s i :
  (0 <= i < Z.of_nat (String.length s))%Z ->
  exists c, String.get (Z.to_nat i) s = Some c /\ charAt s i = String c EmptyString.
Proof.
  intros Hi. unfold charAt.
  destruct (i <? 0)%Z eqn:Hneg; [lia |].
  destruct (get_in_range (Z.to_nat i) s) as (c & Hc); [lia |].
  rewrite Hc. eauto.
Qed.

Lemma passcode_loop_prefix random remaining :
  forall i result j,
    j < String.length result ->
    String.get j (passcode_loop random i remaining result) = String.get j result.
Proof.
  induction remaining as [| remaining IH]; intros i result j Hj; cbn [passcode_loop];
    [reflexivity |].
  rewrite IH by (rewrite length_append; lia).
  symmetry. now apply append_correct1.
Qed.

Lemma passcode_loop_get random remaining :
  (forall i, (0 <= random i)%Q /\ (random i < 1)%Q) ->
  forall i result j,
    j < remaining ->
    String.get (String.length result + j) (passcode_loop random i remaining result)
    = String.get (Z.to_nat (floor_random_times (random (i + j)) (String.length characters)))
        characters.
Proof.
  intros Hrandom.
  induction remaining as [| remaining IH]; intros i result j Hj; [lia |].
  cbn [passcode_loop].
  destruct (charAt_get characters
              (floor_random_times (random i) (String.length characters)))
    as (c & Hget & Hc).
  { apply floor_random_times_range; [simpl; lia | apply Hrandom ..]. }
  rewrite Hc.
  destruct j as [| j].
  - rewrite passcode_loop_prefix by (rewrite length_append; simpl; lia).
    rewrite !Nat.add_0_r, Hget.
    symmetry. apply (append_correct2 result (String c EmptyString) 0).
  - replace (String.length result + S j)
      with (String.length (result ++ String c EmptyString) + j)
      by (rewrite length_append; simpl; lia).
    rewrite IH by lia. now rewrite Nat.add_succ_comm.
Qed.

(** X15.  Character [i] of the passcode is chosen by draw [i] alone: it is
    the character of the alphabet at index [floor (64 * x_i)], for draws in
    [[0, 1)]. *)
Theorem generateRandomPasscode_characters :
  forall (random : nat -> Q) (i : nat),
    (forall j, (0 <= random j)%Q /\ (random j < 1)%Q) ->
    i < 20 ->
    String.get i (generateRandomPasscode random)
    = String.get (Z.to_nat (floor_random_times (random i) 64)) characters.
Proof.
  intros random i Hrandom Hi.
  apply (passcode_loop_get random 20 Hrandom 0 "" i Hi).
Qed.

Lemma generateRandomPasscode_characters_witness :
  String.get 3 (generateRandomPasscode (fun j => if Nat.even j then 1 # 2 else 63 # 64)%Q)
  = Some "_"%char.
Proof.
  rewrite (generateRandomPasscode_characters
             (fun j => if Nat.even j then 1 # 2 else 63 # 64)%Q 3).
  - reflexivity.
  - intros j. destruct (Nat.even j); split; reflexivity || discriminate.
  - lia.
Defined.

Lemma passcode_loop_ext random1 random2 remaining :
  forall i result,
    (forall j, i <= j -> random1 j = random2 j) ->
    passcode_loop random1 i remaining result = passcode_loop random2 i remaining result.
Proof.
  induction remaining as [| remaining IH]; intros i result Hsame; cbn [passcode_loop];
    [reflexivity |].
  rewrite (Hsame i) by lia. apply IH. intros j Hj. apply Hsame. lia.
Qed.

Lemma in_string_get c s :
  In c (list_ascii_of_string s) -> exists k, k < String.length s /\ String.get k s = Some c.
Proof.
  induction s as [| c' s IH]; simpl; [tauto |].
  intros [-> | Hin].
  - exists 0. split; [lia | reflexivity].
  - destruct (IH Hin) as (k & Hk & Hget). exists (S k). split; [lia | assumption].
Qed.

Lemma floor_random_times_exact k :
  floor_random_times (Z.of_nat k # 64) 64 = Z.of_nat k.
Proof.
  unfold floor_random_times, Qfloor, Qmult. simpl.
  apply Z.div_mul. discriminate.
Qed.

(** Any run of alphabet characters can be appended by the loop. *)
Lemma passcode_loop_reaches (cs : list ascii) :
  Forall (fun c => In c (list_ascii_of_string characters)) cs ->
  forall i result,
  exists random,
    (forall j, (0 <= random j)%Q /\ (random j < 1)%Q)
    /\ passcode_loop random i (length cs) result = result ++ string_of_list_ascii cs.
Proof.
  induction 1 as [| c cs Hc _ IH]; intros i result.
  - exists (fun _ => 0%Q). split.
    + intros j. split; [discriminate | reflexivity].
    + simpl. induction result as [| r result IHr]; simpl; [| rewrite <- IHr]; reflexivity.
  - destruct (in_string_get c characters Hc) as (k & Hk & Hget).
    destruct (IH (S i) (result ++ String c EmptyString)) as (random & Hrange & Hloop).
    exists (fun j => if Nat.eqb j i then (Z.of_nat k # 64)%Q else random j). split.
    + intros j. destruct (Nat.eqb j i); [| apply Hrange].
      change (String.length characters) with 64 in Hk.
      unfold Qle, Qlt. simpl. lia.
    + cbn [passcode_loop length]. rewrite Nat.eqb_refl.
      change (String.length characters) with 64.
      rewrite floor_random_times_exact. unfold charAt.
      destruct (Z.of_nat k <? 0)%Z eqn:Hneg; [lia |].
      rewrite Nat2Z.id, Hget.
      rewrite (passcode_loop_ext _ random).
      * rewrite Hloop. simpl. clear.
        induction result as [| r result IHr]; simpl; [| rewrite IHr]; reflexivity.
      * intros j Hj. destruct (Nat.eqb_spec j i); [lia | reflexivity].
Qed.

(** X16.  Every string of 20 characters of the alphabet is a passcode that
    [generateRandomPasscode] can return: some draws in [[0, 1)] produce it. *)
Theorem generateRandomPasscode_reaches_every_passcode :
  forall passcode : string,
    String.length passcode = 20 ->
    Forall (fun c => In c (list_ascii_of_string characters)) (list_ascii_of_string passcode) ->
    exists random,
      (forall j, (0 <= random j)%Q /\ (random j < 1)%Q)
      /\ generateRandomPasscode random = passcode.
Proof.
  intros passcode Hlen Hall.
  destruct (passcode_loop_reaches (list_ascii_of_string passcode) Hall 0 "")
    as (random & Hrange & Hloop).
  exists random. split; [exact Hrange |].
  unfold generateRandomPasscode.
  assert (Hlist : length (list_ascii_of_string passcode) = 20).
  { rewrite <- Hlen. clear. induction passcode; simpl; auto. }
  rewrite Hlist in Hloop. rewrite Hloop.
  simpl. apply string_of_list_ascii_of_string.
Qed.

Lemma generateRandomPasscode_reaches_every_passcode_witness :
  exists random,
    (forall j, (0 <= random j)%Q /\ (random j < 1)%Q)
    /\ generateRandomPasscode random = "correct-horse_Stapl3".
Proof.
  apply (generateRandomPasscode_reaches_every_passcode "correct-horse_Stapl3").
  - reflexivity.
  - apply Forall_forall. intros c Hc.
    simpl in Hc. repeat (destruct Hc as [<- | Hc]; [simpl; tauto |]). contradiction.
Defined.

(** ** [generatePasscodeAndConfig] and [loadConfig] together *)

(** X17.  After [generatePasscodeAndConfig], a [loadConfig] that takes the
    default branch (the bundled file unavailable, its failure logged) with a
    truthy overlay whose [aidName] is falsy or converts to a property key
    reads the generated passcode as default secret when the overlay has no
    passcode; when the overlay has a truthy passcode, that one is the
    default secret of the new config and of the config that
    [generatePasscodeAndConfig] returned. *)
Theorem generate_then_loadConfig :
  forall (JSON_parse : string -> option value) (w : world) (name : string)
         (runtimeValues : value) (random : nat -> Q) (s : store) (key : option string),
    file_unavailable (fetch w ("src/user_config/" ++ name ++ ".json")) = true ->
    failure_loggable (fetch w ("src/user_config/" ++ name ++ ".json")) = true ->
    truthy runtimeValues = true ->
    aid_key runtimeValues = Ret key ->
    exists passcode generated s1 config s2,
      generatePasscodeAndConfig random s = (Ret (passcode, generated), s1)
      /\ loadConfig JSON_parse w name runtimeValues s1 = (Ret config, s2)
      /\ config <> Parsed VNull
      /\ at_path (snapshot s1 (Copied generated)) [ "secrets"; "browser_extension" ]
         = VStr passcode
      /\ (truthy (prop_of runtimeValues "passcode") = false ->
          at_path (snapshot s2 config) [ "secrets"; "browser_extension" ] = VStr passcode)
      /\ (truthy (prop_of runtimeValues "passcode") = true ->
          at_path (snapshot s2 config) [ "secrets"; "browser_extension" ]
          = prop_of runtimeValues "passcode"
          /\ at_path (snapshot s2 (Copied generated)) [ "secrets"; "browser_extension" ]
             = prop_of runtimeValues "passcode").
Proof.
  intros JSON_parse w name rv random s key Hfile Hlog Hrv Hkey.
  destruct (config_from_file_unavailable JSON_parse w name rv Hfile) as (e & He & Hmsg).
  rewrite Hlog in Hmsg.
  exists (generateRandomPasscode random), DEFAULT_CLIENT_CONFIG.
  eexists. do 2 eexists.
  split; [reflexivity |].
  split; [rewrite (loadConfig_from_default _ _ _ _ _ _ He Hmsg); unfold default_config;
          rewrite Hrv, Hkey; reflexivity |].
  split; [discriminate |].
  assert (Hslot : forall s', lookup "secrets" (copy_after rv s') = Some (Shared RSecrets)).
  { intros s'. rewrite copy_after_lookup by discriminate.
    destruct (truthy (prop_of rv "bran")); reflexivity. }
  rewrite !at_path_copied, !Hslot.
  change (lookup "secrets" DEFAULT_CLIENT_CONFIG) with (Some (Shared RSecrets)).
  unfold read_slot, deref. rewrite !at_path_cons, !template_after_secrets.
  destruct s as [secrets agents identifiers users credentials].
  cbn [store_put secrets_obj own_enumerable].
  split; [now rewrite lookup_assign_same |].
  split; intros Hpass; rewrite Hpass.
  - now rewrite lookup_assign_same.
  - now rewrite lookup_assign_same.
Qed.

Lemma generate_then_loadConfig_witness :
  exists generated s1 config s2,
    generatePasscodeAndConfig (fun _ => 0%Q) initial_store
    = (Ret ("AAAAAAAAAAAAAAAAAAAA", generated), s1)
    /\ loadConfig (fun _ => None) offline "client" (VObj [ ("passcode", VStr "P") ]) s1
       = (Ret config, s2)
    /\ at_path (snapshot s1 (Copied generated)) [ "secrets"; "browser_extension" ]
       = VStr "AAAAAAAAAAAAAAAAAAAA"
    /\ at_path (snapshot s2 (Copied generated)) [ "secrets"; "browser_extension" ]
       = VStr "P".
Proof.
  destruct (generate_then_loadConfig (fun _ => None) offline "client"
              (VObj [ ("passcode", VStr "P") ]) (fun _ => 0%Q) initial_store None)
    as (passcode & generated & s1 & config & s2 & Hgen & Hload & _ & Hbefore & _ & Hafter).
  - reflexivity.
  - reflexivity.
  - reflexivity.
  - reflexivity.
  - destruct (Hafter eq_refl) as (_ & Hold).
    assert (Hpasscode : passcode = "AAAAAAAAAAAAAAAAAAAA").
    { vm_compute in Hgen. now injection Hgen as <- _ _. }
    subst passcode. exists generated, s1, config, s2. auto.
Defined.

Lemma Qfloor_unique (y : Q) (k : Z) :
  (inject_Z k <= y)%Q -> (y < inject_Z (k + 1))%Q -> Qfloor y = k.
Proof.
  intros Hle Hlt.
  assert (Hlow : (k <= Qfloor y)%Z).
  { rewrite <- (Qfloor_Z k). now apply Qfloor_resp_le. }
  assert (Hhigh : (Qfloor y < k + 1)%Z).
  { rewrite Zlt_Qlt. eapply Qle_lt_trans; [apply Qfloor_le | exact Hlt]. }
  lia.
Qed.

(** X18.  The alphabet has 64 distinct characters, and a draw [x] selects
    the one at index [k] exactly when [k/64 <= x < (k+1)/64]: every character
    is selected on an interval of the same width. *)
Theorem passcode_character_intervals :
  NoDup (list_ascii_of_string characters)
  /\ forall (x : Q) (k : nat),
       floor_random_times x (String.length characters) = Z.of_nat k
       <-> ((Z.of_nat k # 64) <= x)%Q /\ (x < (Z.of_nat k + 1 # 64))%Q.
Proof.
  split.
  - assert (Hnodup : forall l : list ascii,
               (fix distinct (l : list ascii) : bool :=
                  match l with
                  | [] => true
                  | c :: l' => negb (existsb (Ascii.eqb c) l') && distinct l'
                  end) l = true -> NoDup l).
    { induction l as [| c l IH]; intros H; [constructor |].
      apply andb_prop in H as (Hc & Hl). constructor; [| now apply IH].
      intros Hin. apply negb_true_iff in Hc.
      assert (Hex : existsb (Ascii.eqb c) l = true)
        by (apply existsb_exists; exists c; split; [assumption | apply Ascii.eqb_refl]).
      congruence. }
    apply Hnodup. reflexivity.
  - intros [n d] k. change (String.length characters) with 64.
    unfold floor_random_times. split.
    + intros Hfloor.
      pose proof (Qfloor_le ((n # d) * inject_Z (Z.of_nat 64))) as Hle.
      pose proof (Qlt_floor ((n # d) * inject_Z (Z.of_nat 64))) as Hlt.
      rewrite Hfloor in Hle, Hlt.
      unfold Qle, Qlt, Qmult, inject_Z in *. simpl in *. split; lia.
    + intros [Hle Hlt]. apply Qfloor_unique;
        unfold Qle, Qlt, Qmult, inject_Z in *; simpl in *; lia.
Qed.
